(** * Spec2Rocq: a shallow embedding of the workflow layer of the Websets
    task server (semantic cron, projections, workflow helpers,
    lifecycle harvest) and the properties its specification states. *)

Set Warnings "-register-all".
From Stdlib Require Import ZArith QArith String Ascii List Bool Lia.
From Stdlib Require Import DecimalString.
Import ListNotations.
Open Scope string_scope.

(** ** JavaScript values

    The workflows manipulate untyped records ([Record<string, unknown>]).
    They are modelled as JSON-like values with [undefined]; an object is
    the association list of its own properties in insertion order. *)
Module Js.

Inductive jsval : Type :=
| JUndef
| JNull
| JBool (b : bool)
| JNum (n : Z)
| JStr (s : string)
| JArr (l : list jsval)
| JObj (fs : list (string * jsval)).

(** Own-property lookup; a missing key reads as [undefined]. *)
Fixpoint lookup (fs : list (string * jsval)) (k : string) : jsval :=
  match fs with
  | [] => JUndef
  | (k', v) :: fs' => if String.eqb k k' then v else lookup fs' k
  end.

Definition nullish (v : jsval) : bool :=
  match v with JUndef | JNull => true | _ => false end.

(** [!!v] *)
Definition truthy (v : jsval) : bool :=
  match v with
  | JUndef | JNull => false
  | JBool b => b
  | JNum n => negb (Z.eqb n 0)
  | JStr s => negb (String.eqb s "")
  | JArr _ | JObj _ => true
  end.

(** [v.k]: a TypeError ([None]) on [null]/[undefined]; primitives have
    no own data properties of interest and read as [undefined]. *)
Definition get (v : jsval) (k : string) : option jsval :=
  match v with
  | JUndef | JNull => None
  | JObj fs => Some (lookup fs k)
  | _ => Some JUndef
  end.

(** [v?.k] *)
Definition oget (v : jsval) (k : string) : jsval :=
  match v with
  | JObj fs => lookup fs k
  | _ => JUndef
  end.

(** [a ?? b] *)
Definition coalesce (a b : jsval) : jsval := if nullish a then b else a.

(** [xs.map(f)] with a fallible [f]. *)
Fixpoint omap {A B : Type} (f : A -> option B) (l : list A) : option (list B) :=
  match l with
  | [] => Some []
  | x :: l' =>
      match f x with
      | None => None
      | Some y => match omap f l' with
                  | None => None
                  | Some ys => Some (y :: ys)
                  end
      end
  end.

(** Objects are association lists in insertion order, which is the order
    JavaScript enumerates their keys in, except for array-index keys
    (listed first, in ascending order) and [__proto__] (which sets the
    prototype when assigned).  [digitsValue s acc]: the decimal value of a
    string of digits. *)
Fixpoint digitsValue (s : string) (acc : Z) : option Z :=
  match s with
  | EmptyString => Some acc
  | String c s' =>
      let n := nat_of_ascii c in
      if (Nat.leb 48 n && Nat.leb n 57)%bool
      then digitsValue s' (acc * 10 + Z.of_nat (n - 48))%Z
      else None
  end.

(** An array index: the canonical decimal form of an integer in
    [0, 2^32 - 2]. *)
Definition isArrayIndex (k : string) : bool :=
  match k with
  | EmptyString => false
  | String c rest =>
      if Ascii.eqb c "0" then String.eqb rest ""
      else match digitsValue k 0 with
           | Some v => Z.ltb v 4294967295
           | None => false
           end
  end.

(** A key that JavaScript enumerates in insertion order and stores as an
    own property when assigned. *)
Definition plainKey (k : string) : bool :=
  negb (isArrayIndex k) && negb (String.eqb k "__proto__").

End Js.
Import Js.

(** ** Response projections (lib/projections.ts) *)
Module Projections.

Record ItemFields := {
  f_name : jsval;
  f_url : jsval;
  f_entityType : jsval;
  f_description : jsval
}.

(** [extractItemFields] *)
Definition extractItemFields (item : list (string * jsval)) : ItemFields :=
  let props := lookup item "properties" in
  if negb (truthy props) then
    {| f_name := JStr "unknown"; f_url := JStr "";
       f_entityType := JStr "unknown"; f_description := JStr "" |}
  else
    let company := oget props "company" in
    let person := oget props "person" in
    let article := oget props "article" in
    let researchPaper := oget props "researchPaper" in
    let custom := oget props "custom" in
    let name :=
      coalesce (oget company "name")
      (coalesce (oget person "name")
      (coalesce (oget article "title")
      (coalesce (oget researchPaper "title")
      (coalesce (oget custom "title")
      (coalesce (oget props "description") (JStr "unknown")))))) in
    {| f_name := name;
       f_url := coalesce (oget props "url") (JStr "");
       f_entityType := coalesce (oget props "type") (JStr "unknown");
       f_description := coalesce (oget props "description") (JStr "") |}.

(** [e => ({criterion: e.criterion, satisfied: e.satisfied})] *)
Definition projectEval (e : jsval) : option jsval :=
  match get e "criterion", get e "satisfied" with
  | Some c, Some s => Some (JObj [("criterion", c); ("satisfied", s)])
  | _, _ => None
  end.

(** [e => ({description: e.description, format: e.format, result: e.result})] *)
Definition projectEnrichmentResult (e : jsval) : option jsval :=
  match get e "description", get e "format", get e "result" with
  | Some d, Some f, Some r =>
      Some (JObj [("description", d); ("format", f); ("result", r)])
  | _, _, _ => None
  end.

(** [xs?.map(f) ?? null]; calling [map] on a non-array is a TypeError. *)
Definition mapOrNull (f : jsval -> option jsval) (v : jsval) : option jsval :=
  match v with
  | JUndef | JNull => Some JNull
  | JArr l => match omap f l with Some l' => Some (JArr l') | None => None end
  | _ => None
  end.

(** [projectItem]; [None] is a thrown TypeError. *)
Definition projectItem (item : list (string * jsval))
  : option (list (string * jsval)) :=
  let flds := extractItemFields item in
  match mapOrNull projectEval (lookup item "evaluations"),
        mapOrNull projectEnrichmentResult (lookup item "enrichments") with
  | Some evs, Some ens =>
      Some [("id", lookup item "id");
            ("name", f_name flds);
            ("url", f_url flds);
            ("entityType", f_entityType flds);
            ("description", f_description flds);
            ("evaluations", evs);
            ("enrichments", ens)]
  | _, _ => None
  end.

(** The test fixture [makeItem()] of the projection tests. *)
Definition makeItem : list (string * jsval) :=
  [("id", JStr "item-1");
   ("object", JStr "webset_item");
   ("websetId", JStr "ws-1");
   ("sourceId", JStr "src-1");
   ("source", JStr "search");
   ("createdAt", JStr "2024-01-01T00:00:00Z");
   ("properties", JObj [("type", JStr "company");
                        ("url", JStr "https://acme.com");
                        ("description", JStr "A company that makes everything");
                        ("company", JObj [("name", JStr "Acme Corp");
                                          ("domain", JStr "acme.com");
                                          ("industry", JStr "Manufacturing")]);
                        ("content", JStr "Very long content string")]);
   ("evaluations", JArr [JObj [("criterion", JStr "Is a technology company");
                               ("satisfied", JStr "yes");
                               ("reasoning", JStr "The company develops technology");
                               ("references", JArr [JStr "https://acme.com/about"])]]);
   ("enrichments", JArr [JObj [("enrichmentId", JStr "enr-1");
                               ("description", JStr "Annual revenue");
                               ("format", JStr "number");
                               ("status", JStr "completed");
                               ("result", JArr [JStr "50000000"])]])].

End Projections.

(** ** String helpers of the JavaScript runtime *)
Module Str.

Definition dq : string := String (Ascii.ascii_of_nat 34) EmptyString.

(** [xs.join(sep)] *)
Fixpoint join (sep : string) (xs : list string) : string :=
  match xs with
  | [] => ""
  | [x] => x
  | x :: xs' => x ++ sep ++ join sep xs'
  end.

(** [xs.includes(x)] *)
Definition mem (x : string) (xs : list string) : bool :=
  existsb (String.eqb x) xs.

(** [[...new Set(xs)]]: first occurrences, in order. *)
Fixpoint dedup_acc (seen : list string) (xs : list string) : list string :=
  match xs with
  | [] => []
  | x :: xs' =>
      if mem x seen then dedup_acc seen xs'
      else x :: dedup_acc (x :: seen) xs'
  end.
Definition dedup (xs : list string) : list string := dedup_acc [] xs.

(** [toLowerCase] on the ASCII range. *)
Definition lower_char (c : ascii) : ascii :=
  let n := Ascii.nat_of_ascii c in
  if (65 <=? n)%nat && (n <=? 90)%nat then Ascii.ascii_of_nat (n + 32) else c.
Fixpoint toLowerCase (s : string) : string :=
  match s with
  | EmptyString => EmptyString
  | String c s' => String (lower_char c) (toLowerCase s')
  end.

(** [s.startsWith(p)] *)
Fixpoint startsWith (p s : string) : bool :=
  match p, s with
  | EmptyString, _ => true
  | String c p', String d s' => Ascii.eqb c d && startsWith p' s'
  | String _ _, EmptyString => false
  end.

(** [s.includes(p)] *)
Fixpoint includes (s p : string) : bool :=
  startsWith p s ||
  match s with
  | EmptyString => false
  | String _ s' => includes s' p
  end.

End Str.

(** ** Semantic cron: shape conditions (evaluateCondition) *)
Module Shape.

(** [Condition.value : number | string | string[] | undefined];
    numbers of the configuration are rationals here. *)
Inductive cvalue : Type :=
| CUndef
| CNum (q : Q)
| CStr (s : string)
| CArr (l : list string).

Record Condition := mkCondition {
  c_enrichment : string;
  c_operator : string;
  c_value : cvalue
}.

Section Runtime.
(** The JavaScript primitives the conditions call, left abstract:
    [Number(s)] ([None] is [NaN]), [new RegExp(v).test(s)] ([None] is the
    SyntaxError of an invalid pattern), [new Date(s).getTime()] ([None] is
    [NaN]) and [Date.now()]. *)
Variable Number_ : string -> option Q.
Variable regex_test : cvalue -> string -> option bool.
Variable date_parse : string -> option Z.
Variable now : Z.

(** ToNumber of a condition value, as [>=] and [*] coerce it. *)
Definition toNumber (v : cvalue) : option Q :=
  match v with
  | CUndef => None
  | CNum q => Some q
  | CStr s => Number_ s
  | CArr l => Number_ (Str.join "," l)
  end.

(** A relational comparison of a number with a coerced value; [NaN]
    makes it false. *)
Definition cmp (op : Q -> Q -> bool) (num : Q) (v : cvalue) : bool :=
  match toNumber v with Some t => op num t | None => false end.

(** [evaluateCondition]; [None] is a thrown TypeError or SyntaxError.
    [null] and [undefined] results are both [None]. *)
Definition evaluateCondition (condition : Condition)
    (enrichmentResult : option (list string)) : option bool :=
  if String.eqb (c_operator condition) "exists" then
    Some (match enrichmentResult with
          | Some (r0 :: _) => Nat.ltb 0 (String.length r0)
          | _ => false
          end)
  else
    match enrichmentResult with
    | None | Some [] => Some false
    | Some (raw :: _) =>
        let op := c_operator condition in
        if String.eqb op "gte" || String.eqb op "gt" || String.eqb op "lte"
           || String.eqb op "lt" || String.eqb op "eq" then
          match Number_ raw with
          | None => Some false
          | Some num =>
              let target := c_value condition in
              if String.eqb op "gte" then Some (cmp (fun a b => Qle_bool b a) num target)
              else if String.eqb op "gt" then Some (cmp (fun a b => negb (Qle_bool a b)) num target)
              else if String.eqb op "lte" then Some (cmp Qle_bool num target)
              else if String.eqb op "lt" then Some (cmp (fun a b => negb (Qle_bool b a)) num target)
              else Some (match target with CNum t => Qeq_bool num t | _ => false end)
          end
        else if String.eqb op "contains" then
          match c_value condition with
          | CStr v => Some (Str.includes (Str.toLowerCase raw) (Str.toLowerCase v))
          | _ => None
          end
        else if String.eqb op "matches" then
          regex_test (c_value condition) raw
        else if String.eqb op "oneOf" then
          match c_value condition with
          | CArr options =>
              Some (existsb (fun opt => String.eqb (Str.toLowerCase opt)
                                                   (Str.toLowerCase raw)) options)
          | _ => None
          end
        else if String.eqb op "withinDays" then
          match date_parse raw with
          | None => Some false
          | Some parsed =>
              Some (cmp (fun d n => Qle_bool d (n * inject_Z 86400000))
                        (inject_Z (Z.abs (now - parsed))) (c_value condition))
          end
        else Some false
    end.

End Runtime.
End Shape.

(** ** Semantic cron: join and signal result types *)
Module Signal.
Import Str.

(** [JoinedEntity]; [shapes] maps a lens id to its enrichment values. *)
Record JoinedEntity := mkJoinedEntity {
  je_entity : string;
  je_url : string;
  je_presentInLenses : list string;
  je_lensCount : Z;
  je_shapes : list (string * list (string * jsval))
}.

Record JoinResult := mkJoinResult {
  jr_type : string;
  jr_entities : list JoinedEntity;
  jr_lensesWithEvidence : list string
}.

Inductive RuleType := RAll | RAny | RThreshold | RCombination.

Definition rule_name (t : RuleType) : string :=
  match t with
  | RAll => "all" | RAny => "any"
  | RThreshold => "threshold" | RCombination => "combination"
  end.

Record SignalConfig := mkSignalConfig {
  sc_type : RuleType;
  sc_min : option Z;
  sc_sufficient : option (list (list string))
}.

Record SignalResult := mkSignalResult {
  sr_fired : bool;
  sr_satisfiedBy : list string;
  sr_rule : string;
  sr_matchedCombination : option (list string);
  sr_entities : list string
}.

(** A value or a thrown [WorkflowError(message, step)]. *)
Inductive wresult (A : Type) : Type :=
| WOk (a : A)
| WErr (message step : string).
Arguments WOk {A} a.
Arguments WErr {A} message step.

(** [sufficient!]: present whenever the combination rule is evaluated,
    since [evaluateSignal] validates it first. *)
Definition sufficient_or_nil (c : SignalConfig) : list (list string) :=
  match sc_sufficient c with Some l => l | None => [] end.

Definition coversAll (combo lenses : list string) : bool :=
  forallb (fun id => mem id lenses) combo.

(** The first combination that some entity covers, with its entities. *)
Fixpoint firstMatchingCombo (es : list JoinedEntity) (combos : list (list string))
  : option (list string * list JoinedEntity) :=
  match combos with
  | [] => None
  | combo :: rest =>
      match filter (fun e => coversAll combo (je_presentInLenses e)) es with
      | [] => firstMatchingCombo es rest
      | matching => Some (combo, matching)
      end
  end.

Definition evaluateSignalWithEntities (joinResult : JoinResult)
    (signalConfig : SignalConfig) (allLensIds : list string) : SignalResult :=
  let es := jr_entities joinResult in
  let mk (matching : list JoinedEntity) (mc : option (list string)) :=
    {| sr_fired := negb (Nat.eqb (length matching) 0);
       sr_satisfiedBy := dedup (flat_map je_presentInLenses matching);
       sr_rule := rule_name (sc_type signalConfig);
       sr_matchedCombination := mc;
       sr_entities := map je_entity matching |} in
  match sc_type signalConfig with
  | RAll =>
      mk (filter (fun e => forallb (fun id => mem id (je_presentInLenses e)) allLensIds) es) None
  | RAny => mk es None
  | RThreshold =>
      let m := match sc_min signalConfig with Some m => m | None => 2%Z end in
      mk (filter (fun e => Z.leb m (je_lensCount e)) es) None
  | RCombination =>
      match firstMatchingCombo es (sufficient_or_nil signalConfig) with
      | Some (combo, matching) => mk matching (Some combo)
      | None => mk [] None
      end
  end.

Fixpoint firstCoveredCombo (evidence : list string) (combos : list (list string))
  : option (list string) :=
  match combos with
  | [] => None
  | combo :: rest =>
      if coversAll combo evidence then Some combo else firstCoveredCombo evidence rest
  end.

Definition evaluateSignalWithEvidence (joinResult : JoinResult)
    (signalConfig : SignalConfig) (allLensIds : list string) : SignalResult :=
  let evidence := jr_lensesWithEvidence joinResult in
  let '(fired, matched) :=
    match sc_type signalConfig with
    | RAll => (forallb (fun id => mem id evidence) allLensIds, None)
    | RAny => (negb (Nat.eqb (length evidence) 0), None)
    | RThreshold =>
        let m := match sc_min signalConfig with Some m => m | None => 2%Z end in
        (Z.leb m (Z.of_nat (length evidence)), None)
    | RCombination =>
        match firstCoveredCombo evidence (sufficient_or_nil signalConfig) with
        | Some combo => (true, Some combo)
        | None => (false, None)
        end
    end in
  {| sr_fired := fired; sr_satisfiedBy := evidence;
     sr_rule := rule_name (sc_type signalConfig);
     sr_matchedCombination := matched; sr_entities := [] |}.

(** The lens-id validation of the combination rule. *)
Fixpoint validateCombos (allLensIds : list string) (combos : list (list string))
  : wresult unit :=
  match combos with
  | [] => WOk tt
  | combo :: rest =>
      match find (fun id => negb (mem id allLensIds)) combo with
      | Some lensId =>
          WErr ("Unknown lens ID " ++ dq ++ lensId ++ dq ++
                " in signal.requires.sufficient. Available: " ++
                join ", " allLensIds) "validate"
      | None => validateCombos allLensIds rest
      end
  end.

(** The validation at the top of [evaluateSignal]. *)
Definition validateSignal (signalConfig : SignalConfig) (allLensIds : list string)
  : wresult unit :=
  match sc_type signalConfig with
  | RCombination =>
      match sc_sufficient signalConfig with
      | None | Some [] =>
          WErr "signal.requires.sufficient must be provided for combination type"
               "validate"
      | Some combos => validateCombos allLensIds combos
      end
  | _ => WOk tt
  end.

Definition evaluateSignal (joinResult : JoinResult)
    (signalConfig : SignalConfig) (allLensIds : list string)
  : wresult SignalResult :=
  match validateSignal signalConfig allLensIds with
  | WErr m st => WErr m st
  | WOk _ =>
      if negb (Nat.eqb (length (jr_entities joinResult)) 0)
      then WOk (evaluateSignalWithEntities joinResult signalConfig allLensIds)
      else WOk (evaluateSignalWithEvidence joinResult signalConfig allLensIds)
  end.

End Signal.

(** ** Semantic cron: the join engine (joinLensResults) *)
Module Join.
Import Str Signal.

Record ShapedItem := mkShapedItem {
  si_id : string;
  si_name : string;
  si_url : string;
  si_entityType : string;
  si_enrichments : list (string * jsval);
  si_createdAt : string;
  si_projected : list (string * jsval)
}.

Record LensResult := mkLensResult {
  lr_lensId : string;
  lr_websetId : string;
  lr_totalItems : Z;
  lr_shapedItems : list ShapedItem
}.

Inductive JoinBy := ByEntity | ByTemporal | ByEntityTemporal | ByCooccurrence.

Definition joinBy_name (b : JoinBy) : string :=
  match b with
  | ByEntity => "entity" | ByTemporal => "temporal"
  | ByEntityTemporal => "entity+temporal" | ByCooccurrence => "cooccurrence"
  end.

(** [JoinConfig], with [entityMatch?.nameThreshold] and [temporal?.days]
    read through; [temporal.days] is any (finite) number, a rational here. *)
Record JoinConfig := mkJoinConfig {
  jc_by : JoinBy;
  jc_nameThreshold : option Q;
  jc_temporalDays : option Q;
  jc_minLensOverlap : option Z
}.

(** A value of the entity map. [lenses] is a [Set] (insertion order),
    [shapes] an object keyed by lens id, [timestamps] the recorded
    [(lensId, createdAt)] pairs. *)
Record Entry := mkEntry {
  en_entity : string;
  en_url : string;
  en_lenses : list string;
  en_shapes : list (string * list (string * jsval));
  en_timestamps : list (string * string)
}.

(** [set.add(x)] *)
Definition set_add (x : string) (s : list string) : list string :=
  if mem x s then s else s ++ [x].

(** [obj[k] = v]: an existing key keeps its position. *)
Fixpoint obj_set {V : Type} (fs : list (string * V)) (k : string) (v : V)
  : list (string * V) :=
  match fs with
  | [] => [(k, v)]
  | (k', v') :: fs' =>
      if String.eqb k k' then (k, v) :: fs' else (k', v') :: obj_set fs' k v
  end.

(** [threshold = joinConfig.entityMatch?.nameThreshold ?? 0.85] *)
Definition nameThreshold (jc : JoinConfig) : Q :=
  match jc_nameThreshold jc with Some t => t | None => 17 # 20 end.

(** [minOverlap = joinConfig.minLensOverlap ?? 2] *)
Definition minOverlap (jc : JoinConfig) : Z :=
  match jc_minLensOverlap jc with Some m => m | None => 2%Z end.

Definition nonEmpty (s : string) : bool := negb (String.eqb s "").

Section Engine.
(** [diceCoefficient] (imported from the convergent-search workflow) and
    [new Date(s).getTime()] ([None] is [NaN]). *)
Variable diceCoefficient : string -> string -> Q.
Variable getTime : string -> option Z.

(** [si.url && existing.url && si.url === existing.url] *)
Definition urlMatch (si : ShapedItem) (e : Entry) : bool :=
  nonEmpty (si_url si) && nonEmpty (en_url e) && String.eqb (si_url si) (en_url e).

(** [si.name && existing.entity && diceCoefficient(si.name, existing.entity) > threshold] *)
Definition nameMatch (thr : Q) (si : ShapedItem) (e : Entry) : bool :=
  nonEmpty (si_name si) && nonEmpty (en_entity e) &&
  negb (Qle_bool (diceCoefficient (si_name si) (en_entity e)) thr).

(** Folding a matched item into an entry (both branches do the same). *)
Definition foldInto (lensId : string) (si : ShapedItem) (e : Entry) : Entry :=
  {| en_entity := en_entity e;
     en_url := en_url e;
     en_lenses := set_add lensId (en_lenses e);
     en_shapes := obj_set (en_shapes e) lensId (si_enrichments si);
     en_timestamps := en_timestamps e ++ [(lensId, si_createdAt si)] |}.

(** The [for (const [key, existing] of entityMap)] loop with its [break]:
    [Some] the updated map when some entry matched. *)
Fixpoint matchEntry (thr : Q) (lensId : string) (si : ShapedItem)
    (m : list (string * Entry)) : option (list (string * Entry)) :=
  match m with
  | [] => None
  | (k, e) :: rest =>
      if urlMatch si e || nameMatch thr si e
      then Some ((k, foldInto lensId si e) :: rest)
      else match matchEntry thr lensId si rest with
           | Some rest' => Some ((k, e) :: rest')
           | None => None
           end
  end.

(** [si.url || si.name || si.id] *)
Definition entryKey (si : ShapedItem) : string :=
  if nonEmpty (si_url si) then si_url si
  else if nonEmpty (si_name si) then si_name si
  else si_id si.

Definition newEntry (lensId : string) (si : ShapedItem) : Entry :=
  {| en_entity := si_name si; en_url := si_url si; en_lenses := [lensId];
     en_shapes := [(lensId, si_enrichments si)];
     en_timestamps := [(lensId, si_createdAt si)] |}.

(** One shaped item of one lens. *)
Definition processItem (jc : JoinConfig) (lensId : string)
    (m : list (string * Entry)) (si : ShapedItem) : list (string * Entry) :=
  match matchEntry (nameThreshold jc) lensId si m with
  | Some m' => m'
  | None => obj_set m (entryKey si) (newEntry lensId si)
  end.

(** The entity map after walking every lens result in order. *)
Definition buildEntityMap (jc : JoinConfig) (lensResults : list LensResult)
  : list (string * Entry) :=
  fold_left (fun m lr => fold_left (processItem jc (lr_lensId lr)) (lr_shapedItems lr) m)
            lensResults [].

Definition toJoined (e : Entry) : JoinedEntity :=
  {| je_entity := en_entity e; je_url := en_url e;
     je_presentInLenses := en_lenses e;
     je_lensCount := Z.of_nat (length (en_lenses e));
     je_shapes := en_shapes e |}.

(** [windowMs = days * 86400000] *)
Definition windowOf (days : Q) : Q := days * inject_Z 86400000.

(** [diff <= windowMs] for an integral number of milliseconds [diff]. *)
Definition withinMs (diff : Z) (windowMs : Q) : bool := Qle_bool (inject_Z diff) windowMs.

(** Two recorded timestamps of different lenses within the window. *)
Definition closeTs (windowMs : Q) (a b : string * string) : bool :=
  negb (String.eqb (fst a) (fst b)) &&
  match getTime (snd a), getTime (snd b) with
  | Some ta, Some tb => withinMs (Z.abs (ta - tb)) windowMs
  | _, _ => false
  end.

(** The [i < j] double loop over the timestamps. *)
Fixpoint anyPair (windowMs : Q) (ts : list (string * string)) : bool :=
  match ts with
  | [] => false
  | a :: rest => existsb (closeTs windowMs a) rest || anyPair windowMs rest
  end.

Definition temporalOk (entries : list Entry) (windowMs : Q) (ent : JoinedEntity) : bool :=
  match find (fun e => String.eqb (en_entity e) (je_entity ent) &&
                       String.eqb (en_url e) (je_url ent)) entries with
  | None => false
  | Some entry => anyPair windowMs (en_timestamps entry)
  end.

(** [joinByCooccurrence] *)
Definition joinByCooccurrence (lensResults : list LensResult)
    (temporalDays : option Q) : JoinResult :=
  match temporalDays with
  | Some d =>
      if Qeq_bool d 0 then
        mkJoinResult "cooccurrence" []
          (map lr_lensId (filter (fun lr => negb (Nat.eqb (length (lr_shapedItems lr)) 0))
                                 lensResults))
      else
        let all := flat_map (fun lr => map (fun si => (lr_lensId lr, getTime (si_createdAt si)))
                                           (lr_shapedItems lr)) lensResults in
        match all with
        | [] => mkJoinResult "cooccurrence" [] []
        | _ =>
            let times := map snd all in
            if existsb (fun t => match t with None => true | Some _ => false end) times
            then (* [Math.min] over a [NaN] is [NaN]: nothing qualifies *)
              mkJoinResult "cooccurrence" [] []
            else
              let ts := map (fun t => match t with Some z => z | None => 0%Z end) times in
              let earliest := fold_left Z.min ts (hd 0%Z ts) in
              let windowMs := windowOf d in
              let qualifying := filter (fun p => match snd p with
                                                 | Some t => withinMs (t - earliest) windowMs
                                                 | None => false
                                                 end) all in
              mkJoinResult "cooccurrence" [] (dedup (map fst qualifying))
        end
  | None =>
      mkJoinResult "cooccurrence" []
        (map lr_lensId (filter (fun lr => negb (Nat.eqb (length (lr_shapedItems lr)) 0))
                               lensResults))
  end.

(** [joinByTemporal] *)
Definition joinByTemporal (lensResults : list LensResult) (days : Q) : JoinResult :=
  let windowMs := windowOf days in
  let lensTimes :=
    fold_left (fun acc lr =>
                 let times := map (fun si => getTime (si_createdAt si)) (lr_shapedItems lr) in
                 if Nat.eqb (length times) 0 then acc else obj_set acc (lr_lensId lr) times)
              lensResults [] in
  let close (ta tb : option Z) : bool :=
    match ta, tb with
    | Some a, Some b => withinMs (Z.abs (a - b)) windowMs
    | _, _ => false
    end in
  let fix pairs (ls : list (string * list (option Z))) (q : list string) : list string :=
    match ls with
    | [] => q
    | (la, timesA) :: rest =>
        let q' := fold_left (fun q lb =>
                    if existsb (fun ta => existsb (close ta) (snd lb)) timesA
                    then set_add (fst lb) (set_add la q) else q) rest q in
        pairs rest q'
    end in
  mkJoinResult "temporal" [] (pairs lensTimes []).

(** [joinLensResults] *)
Definition joinLensResults (lensResults : list LensResult) (jc : JoinConfig)
  : JoinResult :=
  match jc_by jc with
  | ByCooccurrence => joinByCooccurrence lensResults (jc_temporalDays jc)
  | ByTemporal =>
      joinByTemporal lensResults (match jc_temporalDays jc with Some d => d | None => 7 end)
  | _ =>
      let entityMap := buildEntityMap jc lensResults in
      let entries := map snd entityMap in
      let entities := map toJoined entries in
      let entities :=
        match jc_by jc, jc_temporalDays jc with
        | ByEntityTemporal, Some d =>
            if Qeq_bool d 0 then entities
            else filter (temporalOk entries (windowOf d)) entities
        | _, _ => entities
        end in
      let entities := filter (fun e => Z.leb (minOverlap jc) (je_lensCount e)) entities in
      mkJoinResult (joinBy_name (jc_by jc)) entities
        (dedup (flat_map je_presentInLenses entities))
  end.

End Engine.

(** Modelled from the spec: [diceCoefficient] of the convergent-search
    workflow ([convergent.ts], not among the sources), the Dice (bigram)
    coefficient [2 |B(a) ∩ B(b)| / (|B(a)| + |B(b)|)] over the multisets of
    adjacent character pairs; two strings without bigrams score 1 when
    equal and 0 otherwise. *)
Fixpoint bigrams (s : string) : list string :=
  match s with
  | String a ((String b _) as rest) => String a (String b EmptyString) :: bigrams rest
  | _ => []
  end.

Fixpoint remove_one (x : string) (l : list string) : option (list string) :=
  match l with
  | [] => None
  | y :: l' => if String.eqb x y then Some l'
               else option_map (cons y) (remove_one x l')
  end.

Fixpoint multiset_inter (xs ys : list string) : nat :=
  match xs with
  | [] => 0
  | x :: xs' =>
      match remove_one x ys with
      | Some ys' => S (multiset_inter xs' ys')
      | None => multiset_inter xs' ys
      end
  end.

Definition diceSpec (a b : string) : Q :=
  let ba := bigrams a in
  let bb := bigrams b in
  match (length ba + length bb)%nat with
  | O => if String.eqb a b then 1 else 0
  | S _ => (inject_Z (2 * Z.of_nat (multiset_inter ba bb)))
             / inject_Z (Z.of_nat (length ba + length bb))
  end.

End Join.

(** ** Quality-diversity winnowing: niche classification *)
Module Winnow.
Import Str.

Record Evaluation := mkEvaluation {
  ev_criterion : string;
  ev_satisfied : string
}.

Record ClassifiedNiche := mkClassifiedNiche {
  cn_niche : string;
  cn_vector : list bool
}.

(** Modelled from the spec: [classifyItem] of the qd.winnow workflow
    ([qdWinnow.ts], of which only the tests are among the sources).
    Position [i] of the vector is true iff the evaluation for criterion
    [i] has [satisfied == "yes"], a missing evaluation giving false; the
    niche key is the vector encoded as the comma-separated string
    ["1,0,1,..."]. *)
Definition classifyItem (evaluations : list Evaluation) (criteria : list string)
  : ClassifiedNiche :=
  let vector :=
    map (fun c => match find (fun e => String.eqb (ev_criterion e) c) evaluations with
                  | Some e => String.eqb (ev_satisfied e) "yes"
                  | None => false
                  end) criteria in
  {| cn_niche := join "," (map (fun b : bool => if b then "1" else "0") vector);
     cn_vector := vector |}.

End Winnow.

(** ** Workflow runtime: upstream effects, polling, item collection and
    the lifecycle.harvest workflow *)
Module Runtime.
Import Str.
Local Open Scope Z_scope.
Local Open Scope string_scope.

Record Webset := mkWebset {
  ws_id : string;
  ws_status : string;
  ws_progress : option (Z * Z)  (* last search's [progress.found/analyzed] *)
}.

(** The upstream calls and progress updates a workflow performs. *)
Inductive Call :=
| CCreate (query : jsval)
| CGet (websetId : string)
| CCancel (websetId : string)
| CListAll (websetId : string)
| CDelete (websetId : string)
| CSleep (ms : Z)
| CProgress (step : string) (completed total : Z).

(** How many clock readings, [get] responses and cancellation checks the
    run has consumed, and the calls made so far. *)
Record St := mkSt {
  n_now : nat;
  n_get : nat;
  n_cancel : nat;
  calls : list Call
}.

Definition st0 : St := mkSt 0 0 0 [].

Inductive Err :=
| WorkflowError (message step : string)
| JsError (message : string).

(** A run returns, throws, or exhausts its fuel (a loop that has not
    terminated yet). *)
Inductive Out (A : Type) :=
| ORet (a : A)
| OThrow (e : Err)
| OStuck.
Arguments ORet {A} a.
Arguments OThrow {A} e.
Arguments OStuck {A}.

Definition M (A : Type) : Type := St -> Out A * St.

Definition ret {A : Type} (a : A) : M A := fun st => (ORet a, st).
Definition throw {A : Type} (e : Err) : M A := fun st => (OThrow e, st).
Definition stuck {A : Type} : M A := fun st => (OStuck, st).
Definition bind {A B : Type} (m : M A) (k : A -> M B) : M B :=
  fun st => match m st with
            | (ORet a, st') => k a st'
            | (OThrow e, st') => (OThrow e, st')
            | (OStuck, st') => (OStuck, st')
            end.

Notation "x <- m ;; k" := (bind m (fun x => k))
  (at level 61, m at next level, right associativity).

Definition record (c : Call) : M unit :=
  fun st => (ORet tt, mkSt (n_now st) (n_get st) (n_cancel st) (calls st ++ [c])%list).

Section World.
(** The environment of a run: the successive readings of [Date.now()],
    the successive responses of [exa.websets.get], the successive answers
    of the task store to [isCancelled], the webset [exa.websets.create]
    returns, and the item stream [exa.websets.items.listAll] yields per
    webset. *)
Variable clock : nat -> Z.
Variable getResp : nat -> Webset.
Variable cancelledAt : nat -> bool.
Variable created : Webset.
Variable listing : string -> list jsval.

(** [Date.now()] *)
Definition dateNow : M Z :=
  fun st => (ORet (clock (n_now st)), mkSt (S (n_now st)) (n_get st) (n_cancel st) (calls st)).

(** [exa.websets.get(id)] *)
Definition websetsGet (id : string) : M Webset :=
  fun st => (ORet (getResp (n_get st)),
             mkSt (n_now st) (S (n_get st)) (n_cancel st) (calls st ++ [CGet id])%list).

(** [isCancelled(taskId, store)] *)
Definition isCancelled : M bool :=
  fun st => (ORet (cancelledAt (n_cancel st)),
             mkSt (n_now st) (n_get st) (S (n_cancel st)) (calls st)).

Definition websetsCancel (id : string) : M unit := record (CCancel id).
Definition sleep (ms : Z) : M unit := record (CSleep ms).
Definition updateProgress (step : string) (completed total : Z) : M unit :=
  record (CProgress step completed total).

Definition websetsCreate (query : jsval) : M Webset :=
  _ <- record (CCreate query) ;; ret created.

(** The polling loop of [pollUntilIdle], one iteration per unit of fuel. *)
Fixpoint pollLoop (fuel : nat) (websetId : string) (deadline : Z)
    (stepNum totalSteps : Z) : M (Webset * bool) :=
  match fuel with
  | O => stuck
  | S fuel' =>
      webset <- websetsGet websetId ;;
      if String.eqb (ws_status webset) "idle" then ret (webset, false)
      else if String.eqb (ws_status webset) "paused" then
        throw (JsError "Webset was paused unexpectedly")
      else
        t <- dateNow ;;
        if Z.leb deadline t then ret (webset, true)
        else
          _ <- match ws_progress webset with
               | Some _ => updateProgress "searching" stepNum totalSteps
               | None => ret tt
               end ;;
          c <- isCancelled ;;
          if c then
            _ <- websetsCancel websetId ;; ret (webset, false)
          else
            _ <- sleep 2000 ;;
            pollLoop fuel' websetId deadline stepNum totalSteps
  end.

(** [pollUntilIdle]: returns [(webset, timedOut)]. *)
Definition pollUntilIdle (fuel : nat) (websetId : string) (timeoutMs : Z)
    (stepNum totalSteps : Z) : M (Webset * bool) :=
  start <- dateNow ;;
  pollLoop fuel websetId (start + timeoutMs) stepNum totalSteps.

(** The [for await] loop of [collectItems]: push, then stop once
    [items.length >= cap]. *)
Fixpoint collectGo (cap : Z) (n : nat) (xs : list jsval) : list jsval :=
  match xs with
  | [] => []
  | x :: xs' =>
      if Z.leb cap (Z.of_nat (S n)) then [x] else x :: collectGo cap (S n) xs'
  end.

(** [collectItems(exa, websetId, cap = 1000)] *)
Definition collectItems (websetId : string) (cap : option Z) : M (list jsval) :=
  _ <- record (CListAll websetId) ;;
  ret (collectGo (match cap with Some c => c | None => 1000%Z end) 0 (listing websetId)).

(** [websetIds[lens.id]] *)
Definition websetOf (websetIds : list (string * string)) (lensId : string) : string :=
  match find (fun p => String.eqb (fst p) lensId) websetIds with
  | Some p => snd p
  | None => ""
  end.

(** The collect step of [semanticCronWorkflow]: [collectItems(exa, wsId)]
    for each lens, in order; a lens is its id and its [source.count]. *)
Fixpoint semanticCronCollect (lenses : list (string * option Z))
    (websetIds : list (string * string)) : M (list (string * list jsval)) :=
  match lenses with
  | [] => ret []
  | (lensId, _) :: rest =>
      let wsId := websetOf websetIds lensId in
      rawItems <- collectItems wsId None ;;
      others <- semanticCronCollect rest websetIds ;;
      ret ((lensId, rawItems) :: others)
  end.

(** Arguments of lifecycle.harvest. *)
Record HarvestArgs := mkHarvestArgs {
  ha_query : jsval;
  ha_entity : jsval;
  ha_criteria : option (list jsval);
  ha_count : option Z;
  ha_enrichments : option (list jsval);
  ha_timeout : option Z;
  ha_cleanup : option bool
}.

(** The result object; [hr_timedOut] is whether [timedOut: true] is set. *)
Record HarvestResult := mkHarvestResult {
  hr_summary : string;
  hr_websetId : string;
  hr_items : list jsval;
  hr_itemCount : Z;
  hr_searchProgress : option (Z * Z);
  hr_enrichmentCount : Z;
  hr_duration : Z;
  hr_steps : list (string * Z);
  hr_timedOut : bool
}.

Definition harvestCount (args : HarvestArgs) : Z :=
  match ha_count args with Some c => c | None => 25%Z end.

Definition Z_to_string (z : Z) : string := NilEmpty.string_of_int (Z.to_int z).

(** [(ms / 1000).toFixed(0)] for a non-negative duration. *)
Definition secondsFixed0 (ms : Z) : string := Z_to_string ((2 * ms + 1000) / 2000).

(** [validateRequired(args, 'query', hint)] *)
Definition validateQuery (args : HarvestArgs) : M unit :=
  if nullish (ha_query args) then
    throw (WorkflowError ("query is required. Natural language search query, e.g. " ++
                          dq ++ "AI startups in San Francisco" ++ dq) "validate")
  else ret tt.

(** [validateEntity(args.entity)]: an object with an own [type] key. *)
Definition entityMessage : string :=
  "entity must be an object: {type: " ++ dq ++ "company" ++ dq ++ "|" ++ dq ++
  "person" ++ dq ++ "|" ++ dq ++ "article" ++ dq ++ "|...}".

Definition validateEntity (entity : jsval) : M unit :=
  match entity with
  | JObj fs =>
      if existsb (fun kv => String.eqb (fst kv) "type") fs then ret tt
      else throw (WorkflowError entityMessage "validate")
  | _ => throw (WorkflowError entityMessage "validate")
  end.

(** lifecycle.harvest from the poll result on (lines 70 to 113). *)
Definition harvestAfterPoll (args : HarvestArgs) (startTime : Z)
    (steps : list (string * Z)) (websetId : string) (step2 : Z)
    (polled : Webset * bool) : M (option HarvestResult) :=
  let '(finalWebset, timedOut) := polled in
  t <- dateNow ;;
  let steps := (steps ++ [("poll", t - step2)])%list in
  c <- isCancelled ;;
  if c then ret None else
  step3 <- dateNow ;;
  _ <- updateProgress "collecting" 3 4 ;;
  items <- collectItems websetId (Some (harvestCount args * 2)) ;;
  t <- dateNow ;;
  let steps := (steps ++ [("collect", t - step3)])%list in
  _ <- (match ha_cleanup args with
        | Some true => record (CDelete websetId)
        | _ => ret tt
        end) ;;
  let enrichmentCount :=
    match ha_enrichments args with Some l => Z.of_nat (length l) | None => 0%Z end in
  _ <- updateProgress "complete" 4 4 ;;
  endTime <- dateNow ;;
  let duration := endTime - startTime in
  ret (Some {| hr_summary :=
                 "Harvested " ++ Z_to_string (Z.of_nat (length items)) ++
                 " items from webset " ++ websetId ++ " (" ++
                 Z_to_string enrichmentCount ++ " enrichments) in " ++
                 secondsFixed0 duration ++ "s";
               hr_websetId := websetId;
               hr_items := items;
               hr_itemCount := Z.of_nat (length items);
               hr_searchProgress := ws_progress finalWebset;
               hr_enrichmentCount := enrichmentCount;
               hr_duration := duration;
               hr_steps := steps;
               hr_timedOut := timedOut |}).

(** [lifecycleHarvestWorkflow]; [None] is the [null] of a cancelled run. *)
Definition lifecycleHarvest (fuel : nat) (args : HarvestArgs) : M (option HarvestResult) :=
  startTime <- dateNow ;;
  let timeoutMs := match ha_timeout args with Some t => t | None => 300000%Z end in
  step0 <- dateNow ;;
  _ <- validateQuery args ;;
  _ <- validateEntity (ha_entity args) ;;
  t <- dateNow ;;
  let steps := [("validate", t - step0)] in
  c <- isCancelled ;;
  if c then ret None else
  step1 <- dateNow ;;
  _ <- updateProgress "creating" 1 4 ;;
  webset <- websetsCreate (ha_query args) ;;
  let websetId := ws_id webset in
  t <- dateNow ;;
  let steps := (steps ++ [("create", t - step1)])%list in
  c <- isCancelled ;;
  if c then (_ <- websetsCancel websetId ;; ret None) else
  step2 <- dateNow ;;
  _ <- updateProgress "polling" 2 4 ;;
  polled <- pollUntilIdle fuel websetId timeoutMs 2 4 ;;
  harvestAfterPoll args startTime steps websetId step2 polled.

End World.
End Runtime.

(** ** Template expansion of semantic.cron: [JSON.stringify], [replaceAll],
    the residual-token scan and [JSON.parse] *)
Module Templates.
Import Str.
Local Open Scope nat_scope.
Local Open Scope string_scope.

Definition chr (n : nat) : ascii := Ascii.ascii_of_nat n.
Definition isc (c : ascii) (n : nat) : bool := Nat.eqb (Ascii.nat_of_ascii c) n.
Definition bs : string := String (chr 92) EmptyString.

(** *** [JSON.stringify] *)

Definition hexDigit (n : nat) : ascii :=
  if Nat.ltb n 10 then chr (48 + n) else chr (87 + n).

(** QuoteJSONString, one code unit. *)
Definition escapeChar (c : ascii) : string :=
  let n := Ascii.nat_of_ascii c in
  if Nat.eqb n 34 then bs ++ dq
  else if Nat.eqb n 92 then bs ++ bs
  else if Nat.eqb n 8 then bs ++ "b"
  else if Nat.eqb n 12 then bs ++ "f"
  else if Nat.eqb n 10 then bs ++ "n"
  else if Nat.eqb n 13 then bs ++ "r"
  else if Nat.eqb n 9 then bs ++ "t"
  else if Nat.ltb n 32 then bs ++ "u00" ++ String (hexDigit (n / 16)) (String (hexDigit (n mod 16)) "")
  else String c "".

Fixpoint quoteBody (s : string) : string :=
  match s with
  | EmptyString => ""
  | String c s' => escapeChar c ++ quoteBody s'
  end.

Definition quoteJSONString (s : string) : string := dq ++ quoteBody s ++ dq.

(** [JSON.stringify] on values; [undefined] members of an object are
    skipped and [undefined] array elements print as [null]. Numbers are
    integers, printed in decimal. *)
Fixpoint stringify (v : jsval) : string :=
  match v with
  | JUndef => "null"
  | JNull => "null"
  | JBool true => "true"
  | JBool false => "false"
  | JNum n => Runtime.Z_to_string n
  | JStr s => quoteJSONString s
  | JArr l => "[" ++ join "," ((fix elems (l : list jsval) : list string :=
                                   match l with
                                   | [] => []
                                   | x :: l' => stringify x :: elems l'
                                   end) l) ++ "]"
  | JObj fs => "{" ++ join "," ((fix members (fs : list (string * jsval)) : list string :=
                                   match fs with
                                   | [] => []
                                   | (k, JUndef) :: fs' => members fs'
                                   | (k, x) :: fs' =>
                                       (quoteJSONString k ++ ":" ++ stringify x) :: members fs'
                                   end) fs) ++ "}"
  end.

(** *** [String.prototype.replaceAll] with a string pattern *)

(** The match positions, found from left to right without overlap. *)
Fixpoint matchPositions (fuel : nat) (pat s : string) (from : nat) : list nat :=
  match fuel with
  | O => []
  | S fuel' =>
      match String.index from pat s with
      | None => []
      | Some p => p :: matchPositions fuel' pat s (p + Nat.max 1 (String.length pat))
      end
  end.

(** GetSubstitution with no capture groups: [$$], [$&], [$`] and [$']
    are replaced, every other character is kept. *)
Fixpoint getSubstitution (matched str : string) (position : nat) (r : string) : string :=
  match r with
  | EmptyString => ""
  | String c r' =>
      if isc c 36 then
        match r' with
        | String d r'' =>
            if isc d 36 then "$" ++ getSubstitution matched str position r''
            else if isc d 38 then matched ++ getSubstitution matched str position r''
            else if isc d 96 then
              String.substring 0 position str ++ getSubstitution matched str position r''
            else if isc d 39 then
              let tailPos := position + String.length matched in
              String.substring tailPos (String.length str - tailPos) str ++
              getSubstitution matched str position r''
            else String c (getSubstitution matched str position r')
        | EmptyString => "$"
        end
      else String c (getSubstitution matched str position r')
  end.

Definition replaceAll (str pat repl : string) : string :=
  let positions := matchPositions (S (String.length str)) pat str 0 in
  let '(result, endOfLast) :=
    fold_left (fun '(acc, endOfLast) p =>
                 (acc ++ String.substring endOfLast (p - endOfLast) str ++
                  getSubstitution pat str p repl, p + String.length pat))
              positions ("", 0%nat) in
  if Nat.ltb endOfLast (String.length str)
  then result ++ String.substring endOfLast (String.length str - endOfLast) str
  else result.

(** *** [expanded.match(/\{\{[^}]+\}\}/g)] *)

(** The maximal prefix of characters other than a closing brace. *)
Fixpoint runNotClose (s : string) : string * string :=
  match s with
  | EmptyString => ("", "")
  | String c s' =>
      if isc c 125 then ("", s)
      else let '(run, rest) := runNotClose s' in (String c run, rest)
  end.

(** A match starting at the head of [s], and the text after it. *)
Definition tokenAt (s : string) : option (string * string) :=
  match s with
  | String a (String b rest) =>
      if isc a 123 && isc b 123 then
        let '(run, after) := runNotClose rest in
        match run, after with
        | String _ _, String c (String d after') =>
            if isc c 125 && isc d 125 then Some ("{{" ++ run ++ "}}", after') else None
        | _, _ => None
        end
      else None
  | _ => None
  end.

Fixpoint scanTokens (fuel : nat) (s : string) : list string :=
  match fuel with
  | O => []
  | S fuel' =>
      match s with
      | EmptyString => []
      | String _ s' =>
          match tokenAt s with
          | Some (tok, after) => tok :: scanTokens fuel' after
          | None => scanTokens fuel' s'
          end
      end
  end.

Definition matchTokens (s : string) : list string := scanTokens (S (String.length s)) s.

(** *** [JSON.parse] *)

(** Parsing returns the value, whether it used JSON beyond this model's
    values (a fraction or exponent in a number, a [\u] escape above 0xFF),
    and the remaining text. *)
Definition PRes (A : Type) : Type := option (A * bool * string).

Definition isWs (c : ascii) : bool := isc c 32 || isc c 9 || isc c 10 || isc c 13.

Fixpoint skipWs (s : string) : string :=
  match s with
  | String c s' => if isWs c then skipWs s' else s
  | EmptyString => s
  end.

Definition isDigit (c : ascii) : bool :=
  Nat.leb 48 (Ascii.nat_of_ascii c) && Nat.leb (Ascii.nat_of_ascii c) 57.

Fixpoint digits (s : string) : string * string :=
  match s with
  | String c s' => if isDigit c then let '(d, r) := digits s' in (String c d, r) else ("", s)
  | EmptyString => ("", "")
  end.

Fixpoint digitsValue (acc : Z) (s : string) : Z :=
  match s with
  | String c s' => digitsValue (10 * acc + Z.of_nat (Ascii.nat_of_ascii c - 48)%nat)%Z s'
  | EmptyString => acc
  end.

Definition hexValue (c : ascii) : option nat :=
  let n := Ascii.nat_of_ascii c in
  if Nat.leb 48 n && Nat.leb n 57 then Some (n - 48)
  else if Nat.leb 97 n && Nat.leb n 102 then Some (n - 87)
  else if Nat.leb 65 n && Nat.leb n 70 then Some (n - 55)
  else None.

(** Fraction and exponent parts of a number, if well formed. *)
Definition numberTail (s : string) : option (bool * string) :=
  let '(hasFrac, s1) :=
    match s with
    | String c s' =>
        if isc c 46 then
          match digits s' with
          | (String _ _, r) => (Some true, r)
          | _ => (None, s)
          end
        else (Some false, s)
    | EmptyString => (Some false, s)
    end in
  match hasFrac with
  | None => None
  | Some frac =>
      match s1 with
      | String e s2 =>
          if isc e 101 || isc e 69 then
            let s3 := match s2 with
                      | String sg s' => if isc sg 43 || isc sg 45 then s' else s2
                      | EmptyString => s2
                      end in
            match digits s3 with
            | (String _ _, r) => Some (true, r)
            | _ => None
            end
          else Some (frac, s1)
      | EmptyString => Some (frac, s1)
      end
  end.

Definition pnumber (s : string) : PRes jsval :=
  let '(neg, s0) := match s with
                    | String c s' => if isc c 45 then (true, s') else (false, s)
                    | EmptyString => (false, s)
                    end in
  let intPart :=
    match s0 with
    | String c s' =>
        if isc c 48 then Some ("0", s')
        else if isDigit c then let '(d, r) := digits s' in Some (String c d, r)
        else None
    | EmptyString => None
    end in
  match intPart with
  | None => None
  | Some (d, r) =>
      match numberTail r with
      | None => None
      | Some (beyond, r') =>
          let z := digitsValue 0 d in
          Some (JNum (if neg then Z.opp z else z), beyond, r')
      end
  end.

(** A string body after the opening quote. *)
Fixpoint pstring (s : string) : PRes string :=
  match s with
  | EmptyString => None
  | String c s' =>
      if isc c 34 then Some ("", false, s')
      else if isc c 92 then
        match s' with
        | EmptyString => None
        | String d s'' =>
            let simple (x : ascii) :=
              match pstring s'' with
              | Some (body, b, r) => Some (String x body, b, r)
              | None => None
              end in
            if isc d 34 then simple (chr 34)
            else if isc d 92 then simple (chr 92)
            else if isc d 47 then simple (chr 47)
            else if isc d 98 then simple (chr 8)
            else if isc d 102 then simple (chr 12)
            else if isc d 110 then simple (chr 10)
            else if isc d 114 then simple (chr 13)
            else if isc d 116 then simple (chr 9)
            else if isc d 117 then
              match s'' with
              | String h1 (String h2 (String h3 (String h4 rest))) =>
                  match hexValue h1, hexValue h2, hexValue h3, hexValue h4 with
                  | Some a, Some b, Some c', Some e =>
                      let code := ((a * 16 + b) * 16 + c') * 16 + e in
                      match pstring rest with
                      | Some (body, bnd, r) =>
                          if Nat.ltb code 256 then Some (String (chr code) body, bnd, r)
                          else Some (String (chr 63) body, true, r)
                      | None => None
                      end
                  | _, _, _, _ => None
                  end
              | _ => None
              end
            else None
        end
      else if Nat.ltb (Ascii.nat_of_ascii c) 32 then None
      else
        match pstring s' with
        | Some (body, b, r) => Some (String c body, b, r)
        | None => None
        end
  end.

Fixpoint pvalue (fuel : nat) (s : string) : PRes jsval :=
  match fuel with
  | O => None
  | S fuel' =>
      match skipWs s with
      | EmptyString => None
      | String c s' as t =>
          if isc c 123 then
            match skipWs s' with
            | String d r => if isc d 125 then Some (JObj [], false, r)
                            else pmembers fuel' (String d r) [] false
            | EmptyString => None
            end
          else if isc c 91 then
            match skipWs s' with
            | String d r => if isc d 93 then Some (JArr [], false, r)
                            else pelements fuel' (String d r) [] false
            | EmptyString => None
            end
          else if isc c 34 then
            match pstring s' with
            | Some (body, b, r) => Some (JStr body, b, r)
            | None => None
            end
          else if isc c 45 || isDigit c then pnumber t
          else if startsWith "true" t then Some (JBool true, false, String.substring 4 (String.length t - 4) t)
          else if startsWith "false" t then Some (JBool false, false, String.substring 5 (String.length t - 5) t)
          else if startsWith "null" t then Some (JNull, false, String.substring 4 (String.length t - 4) t)
          else None
      end
  end
(** Object members from a key on; a repeated key keeps its first position
    and takes the last value. *)
with pmembers (fuel : nat) (s : string) (acc : list (string * jsval)) (b : bool)
    : PRes jsval :=
  match fuel with
  | O => None
  | S fuel' =>
      match skipWs s with
      | String q s' =>
          if isc q 34 then
            match pstring s' with
            | None => None
            | Some (key, b1, r1) =>
                match skipWs r1 with
                | String colon r2 =>
                    if isc colon 58 then
                      match pvalue fuel' r2 with
                      | None => None
                      | Some (v, b2, r3) =>
                          let acc' := Join.obj_set acc key v in
                          let b' := b || b1 || b2 in
                          match skipWs r3 with
                          | String sep r4 =>
                              if isc sep 44 then pmembers fuel' r4 acc' b'
                              else if isc sep 125 then Some (JObj acc', b', r4)
                              else None
                          | EmptyString => None
                          end
                      end
                    else None
                | EmptyString => None
                end
            end
          else None
      | EmptyString => None
      end
  end
with pelements (fuel : nat) (s : string) (acc : list jsval) (b : bool) : PRes jsval :=
  match fuel with
  | O => None
  | S fuel' =>
      match pvalue fuel' s with
      | None => None
      | Some (v, b1, r1) =>
          let acc' := (acc ++ [v])%list in
          match skipWs r1 with
          | String sep r2 =>
              if isc sep 44 then pelements fuel' r2 acc' (b || b1)
              else if isc sep 93 then Some (JArr acc', b || b1, r2)
              else None
          | EmptyString => None
          end
      end
  end.

Inductive parseOutcome :=
| PValue (v : jsval)
| PSyntaxError
| PBeyondModel.

(** [JSON.parse(text)]; every nested call consumes input, so the fuel
    bounds the recursion depth. *)
Definition jsonParse (text : string) : parseOutcome :=
  match pvalue (3 * String.length text + 3) text with
  | Some (v, beyond, rest) =>
      match skipWs rest with
      | EmptyString => if beyond then PBeyondModel else PValue v
      | String _ _ => PSyntaxError
      end
  | None => PSyntaxError
  end.

(** *** [expandTemplates] *)

Inductive expandOutcome :=
| Expanded (config : jsval)
| ValidationError (message step : string)  (* WorkflowError *)
| SyntaxError                              (* thrown by JSON.parse *)
| ParsedBeyondModel.

(** [variables] is [Object.entries(variables)], in order. *)
Definition expandTemplates (config : jsval) (variables : list (string * string))
    : expandOutcome :=
  let json := stringify config in
  let expanded := fold_left (fun acc '(key, value) => replaceAll acc ("{{" ++ key ++ "}}") value)
                            variables json in
  match matchTokens expanded with
  | [] =>
      match jsonParse expanded with
      | PValue v => Expanded v
      | PSyntaxError => SyntaxError
      | PBeyondModel => ParsedBeyondModel
      end
  | unresolved =>
      ValidationError ("Unresolved template variables: " ++ join ", " (dedup unresolved))
                      "validate"
  end.

End Templates.

(** ** Workflow helpers: [withSummary] and [summarizeItem] *)
Module Helpers.
Import Str.

(** [String(v)] / template-literal conversion of a value. *)
Fixpoint jsToString (v : jsval) : string :=
  match v with
  | JUndef => "undefined"
  | JNull => "null"
  | JBool true => "true"
  | JBool false => "false"
  | JNum n => Runtime.Z_to_string n
  | JStr s => s
  | JArr l => join "," ((fix elems (l : list jsval) : list string :=
                          match l with
                          | [] => []
                          | (JUndef | JNull) :: l' => "" :: elems l'
                          | x :: l' => jsToString x :: elems l'
                          end) l)
  | JObj _ => "[object Object]"
  end.

(** [{ _summary: summary, ...result }]: the spread writes each own
    property of [result] in order, an existing key keeping its place; the
    key order is JavaScript's for keys that are not array indices. *)
Definition withSummary (result : list (string * jsval)) (summary : string)
  : list (string * jsval) :=
  fold_left (fun acc kv => Join.obj_set acc (fst kv) (snd kv)) result
            [("_summary", JStr summary)].

(** [summarizeItem] *)
Definition summarizeItem (item : list (string * jsval)) : jsval :=
  let props := lookup item "properties" in
  if negb (truthy props) then JStr "unknown"
  else
    let company := oget props "company" in
    let person := oget props "person" in
    let article := oget props "article" in
    let name :=
      coalesce (oget company "name")
      (coalesce (oget person "name")
      (coalesce (oget article "title")
      (coalesce (oget props "description") (JStr "unknown")))) in
    let url := coalesce (oget props "url") (JStr "") in
    if truthy url then JStr (jsToString name ++ " (" ++ jsToString url ++ ")")
    else name.

End Helpers.

(** ** Response projections: item filtering and research projection *)
Module ItemFilter.
Import Projections.

(** [v.length] *)
Definition jsLength (v : jsval) : jsval :=
  match v with
  | JArr l => JNum (Z.of_nat (length l))
  | JStr s => JNum (Z.of_nat (String.length s))
  | JObj fs => lookup fs "length"
  | _ => JUndef
  end.

(** [evaluations.some(e => e.satisfied === 'yes')], stopping at the first
    hit; [None] is the TypeError of reading [satisfied] of [null] or
    [undefined]. *)
Fixpoint someSatisfied (evaluations : list jsval) : option bool :=
  match evaluations with
  | [] => Some false
  | e :: rest =>
      match get e "satisfied" with
      | None => None
      | Some (JStr s) => if String.eqb s "yes" then Some true else someSatisfied rest
      | Some _ => someSatisfied rest
      end
  end.

(** [hasSatisfiedEvaluation]; [None] is a thrown TypeError. *)
Definition hasSatisfiedEvaluation (item : jsval) : option bool :=
  match get item "evaluations" with
  | None => None
  | Some evaluations =>
      if negb (truthy evaluations) then Some true
      else match jsLength evaluations with
           | JNum 0 => Some true
           | _ =>
               match evaluations with
               | JArr l => someSatisfied l
               | _ => None
               end
           end
  end.

(** The own properties [projectItem] reads from an item. *)
Definition fieldsOf (item : jsval) : list (string * jsval) :=
  match item with JObj fs => fs | _ => [] end.

(** [items.filter(p)] with a fallible [p]. *)
Fixpoint ofilter (p : jsval -> option bool) (l : list jsval) : option (list jsval) :=
  match l with
  | [] => Some []
  | x :: l' =>
      match p x with
      | None => None
      | Some b =>
          match ofilter p l' with
          | None => None
          | Some l'' => Some (if b then x :: l'' else l'')
          end
      end
  end.

Record FilterResult := mkFilterResult {
  fr_data : list (list (string * jsval));
  fr_total : Z;
  fr_included : Z;
  fr_excluded : Z
}.

(** [filterAndProjectItems]; [None] is a thrown TypeError. *)
Definition filterAndProjectItems (items : list jsval) : option FilterResult :=
  let total := Z.of_nat (length items) in
  match ofilter hasSatisfiedEvaluation items with
  | None => None
  | Some passing =>
      match omap (fun it => projectItem (fieldsOf it)) passing with
      | None => None
      | Some data =>
          Some {| fr_data := data; fr_total := total;
                  fr_included := Z.of_nat (length data);
                  fr_excluded := total - Z.of_nat (length data) |}
      end
  end.

(** [projectResearch] *)
Definition projectResearch (research : list (string * jsval)) : list (string * jsval) :=
  let status := lookup research "status" in
  let base := [("researchId", coalesce (lookup research "researchId") (lookup research "id"));
               ("status", status);
               ("model", coalesce (lookup research "model") JNull)] in
  match status with
  | JStr st =>
      if negb (String.eqb st "completed") then base else
      let output := lookup research "output" in
      let costDollars := lookup research "costDollars" in
      let base := (base ++ [("output", coalesce output JNull)])%list in
      if truthy costDollars
      then (base ++ [("cost", coalesce (oget costDollars "total") JNull)])%list
      else base
  | _ => base
  end.

End ItemFilter.

(** ** Semantic cron: enrichment resolution and shape evaluation *)
Module Shapes.
Import Shape.

Record ResolvedEnrichment := mkResolvedEnrichment {
  re_description : string;
  re_result : jsval;
  re_format : jsval
}.

(** [for (const e of rawEnrichments)]: the iterated values of an array or
    a string; [None] for a value that is not iterable. *)
Definition iterate (v : jsval) : option (list jsval) :=
  match v with
  | JArr l => Some l
  | JStr s => Some (map (fun c => JStr (String c EmptyString)) (list_ascii_of_string s))
  | _ => None
  end.

(** [enrichmentMap.get(key)] on a [Map<string, string>] (keys unique). *)
Definition mapGet (m : list (string * string)) (key : jsval) : option string :=
  match key with
  | JStr k => option_map snd (find (fun kv => String.eqb (fst kv) k) m)
  | _ => None
  end.

Fixpoint resolveAll (m : list (string * string)) (es : list jsval)
  : option (list ResolvedEnrichment) :=
  match es with
  | [] => Some []
  | e :: rest =>
      match get e "enrichmentId" with
      | None => None
      | Some id =>
          match resolveAll m rest with
          | None => None
          | Some tl =>
              match mapGet m id with
              | Some description =>
                  if Join.nonEmpty description then
                    Some ({| re_description := description;
                             re_result := oget e "result";
                             re_format := oget e "format" |} :: tl)
                  else Some tl
              | None => Some tl
              end
          end
      end
  end.

(** One item of [resolveEnrichmentDescriptions]. *)
Definition resolveItem (m : list (string * string)) (item : jsval)
  : option (jsval * list ResolvedEnrichment) :=
  match get item "enrichments" with
  | None => None
  | Some raw =>
      if negb (truthy raw) then Some (item, [])
      else match iterate raw with
           | None => None
           | Some es => option_map (fun r => (item, r)) (resolveAll m es)
           end
  end.

(** [resolveEnrichmentDescriptions]; [None] is a thrown TypeError. *)
Definition resolveEnrichmentDescriptions (items : list jsval) (m : list (string * string))
  : option (list (jsval * list ResolvedEnrichment)) :=
  omap (resolveItem m) items.

Record ShapeConfig := mkShapeConfig {
  sh_lensId : string;
  sh_conditions : list Condition;
  sh_logic : string
}.

Section Runtime.
Variable Number_ : string -> option Q.
Variable regex_test : cvalue -> string -> option bool.
Variable date_parse : string -> option Z.
Variable now : Z.

(** [evaluateShape]; an enrichment is its description and its result, a
    [string[] | null] as [ResolvedEnrichment] declares it. *)
Definition evaluateShape (shape : ShapeConfig)
    (enrichments : list (string * option (list string))) : option bool :=
  match omap (fun cond =>
                let m := find (fun e => String.eqb (fst e) (c_enrichment cond)) enrichments in
                evaluateCondition Number_ regex_test date_parse now cond
                  (match m with Some e => snd e | None => None end))
             (sh_conditions shape) with
  | None => None
  | Some results =>
      Some (if String.eqb (sh_logic shape) "all" then forallb (fun b => b) results
            else existsb (fun b => b) results)
  end.

End Runtime.
End Shapes.

(** ** Semantic cron: snapshots and deltas *)
Module Delta.
Import Str Signal Join.

Record LensSnapshot := mkLensSnapshot {
  ls_websetId : option string;   (* [websetIds[lensId]], [None] for undefined *)
  ls_totalItems : Z;
  ls_shapedCount : Z;
  ls_shapes : list (string * string * list (string * jsval))
}.

Record SnapshotData := mkSnapshotData {
  sd_evaluatedAt : string;
  sd_lenses : list (string * LensSnapshot);
  sd_join : JoinResult;
  sd_signal : SignalResult
}.

Record DeltaResult := mkDeltaResult {
  dl_newShapedItems : list (string * Z);
  dl_newJoins : list string;
  dl_lostJoins : list string;
  dl_was : bool;
  dl_now : bool;
  dl_changed : bool;
  dl_newEntities : list string;
  dl_lostEntities : list string;
  dl_timeSinceLastEval : string
}.

(** [formatDuration]; [None] is [NaN]. [Math.floor(a / b)] is [Z.div] and
    the remainder operator [%] is [Z.rem]. *)
Definition formatDuration (ms : option Z) : string :=
  match ms with
  | None => "NaNm"
  | Some ms =>
      let totalMinutes := ms / 60000 in
      let days := totalMinutes / 1440 in
      let hours := Z.rem totalMinutes 1440 / 60 in
      let minutes := Z.rem totalMinutes 60 in
      let parts := app (if 0 <? days then [String.append (Runtime.Z_to_string days) "d"] else [])
                       (if 0 <? hours then [String.append (Runtime.Z_to_string hours) "h"] else []) in
      let parts := if (0 <? minutes) || Nat.eqb (length parts) 0
                   then app parts [String.append (Runtime.Z_to_string minutes) "m"] else parts in
      join " " parts
  end%Z.

(** [e.url || e.entity] *)
Definition entityKey (e : JoinedEntity) : string :=
  if nonEmpty (je_url e) then je_url e else je_entity e.

(** [[...a].filter(k => !b.has(k))] over [Set]s. *)
Definition setMinus (a b : list string) : list string :=
  filter (fun k => negb (mem k b)) (dedup a).

Section Clock.
(** [new Date(s).getTime()] ([None] is [NaN]) and [new Date().toISOString()]. *)
Variable getTime : string -> option Z.
Variable nowIso : string.

Definition prevShapedCount (previous : SnapshotData) (lensId : string) : Z :=
  match find (fun kv => String.eqb (fst kv) lensId) (sd_lenses previous) with
  | Some kv => ls_shapedCount (snd kv)
  | None => 0%Z
  end.

(** [computeDelta] *)
Definition computeDelta (current previous : SnapshotData) : DeltaResult :=
  let newShapedItems :=
    fold_left (fun acc kv =>
                 obj_set acc (fst kv)
                   (Z.max 0 (ls_shapedCount (snd kv) - prevShapedCount previous (fst kv))))
              (sd_lenses current) [] in
  let currentEntityKeys := map entityKey (jr_entities (sd_join current)) in
  let previousEntityKeys := map entityKey (jr_entities (sd_join previous)) in
  let diffMs :=
    match getTime (sd_evaluatedAt current), getTime (sd_evaluatedAt previous) with
    | Some c, Some p => Some (c - p)%Z
    | _, _ => None
    end in
  {| dl_newShapedItems := newShapedItems;
     dl_newJoins := setMinus currentEntityKeys previousEntityKeys;
     dl_lostJoins := setMinus previousEntityKeys currentEntityKeys;
     dl_was := sr_fired (sd_signal previous);
     dl_now := sr_fired (sd_signal current);
     dl_changed := negb (Bool.eqb (sr_fired (sd_signal previous)) (sr_fired (sd_signal current)));
     dl_newEntities := setMinus (sr_entities (sd_signal current)) (sr_entities (sd_signal previous));
     dl_lostEntities := setMinus (sr_entities (sd_signal previous)) (sr_entities (sd_signal current));
     dl_timeSinceLastEval := formatDuration diffMs |}.

(** [buildSnapshot]; the key order of [lenses] is JavaScript's for lens ids
    that are plain keys ([plainKey]: no array index, no [__proto__]). *)
Definition buildSnapshot (lensResults : list LensResult) (joinResult : JoinResult)
    (signalResult : SignalResult) (websetIds : list (string * string)) : SnapshotData :=
  let lenses :=
    fold_left (fun acc lr =>
                 obj_set acc (lr_lensId lr)
                   {| ls_websetId := option_map snd
                        (find (fun kv => String.eqb (fst kv) (lr_lensId lr)) websetIds);
                      ls_totalItems := lr_totalItems lr;
                      ls_shapedCount := Z.of_nat (length (lr_shapedItems lr));
                      ls_shapes := map (fun si => (si_name si, si_url si, si_enrichments si))
                                       (lr_shapedItems lr) |})
              lensResults [] in
  {| sd_evaluatedAt := nowIso; sd_lenses := lenses; sd_join := joinResult;
     sd_signal := signalResult |}.

End Clock.
End Delta.

(* ================================================================== *)
(** * Proofs *)

Module ProjectionProofs.
Import Projections.

Lemma projectEval_fix (e e' : jsval) :
  projectEval e = Some e' -> projectEval e' = Some e'.
Proof.
  unfold projectEval.
  destruct (get e "criterion"), (get e "satisfied"); intro H; inversion H; reflexivity.
Qed.

Lemma projectEnrichmentResult_fix (e e' : jsval) :
  projectEnrichmentResult e = Some e' -> projectEnrichmentResult e' = Some e'.
Proof.
  unfold projectEnrichmentResult.
  destruct (get e "description"), (get e "format"), (get e "result");
    intro H; inversion H; reflexivity.
Qed.

Lemma omap_fix (f : jsval -> option jsval) :
  (forall x y, f x = Some y -> f y = Some y) ->
  forall l l', omap f l = Some l' -> omap f l' = Some l'.
Proof.
  intros Hf l; induction l as [|x l IH]; simpl; intros l' H.
  - inversion H; reflexivity.
  - destruct (f x) as [y|] eqn:Ex; [|discriminate].
    destruct (omap f l) as [ys|] eqn:El; [|discriminate].
    inversion H; subst; simpl.
    rewrite (Hf _ _ Ex), (IH ys eq_refl); reflexivity.
Qed.

Lemma mapOrNull_fix (f : jsval -> option jsval) :
  (forall x y, f x = Some y -> f y = Some y) ->
  forall v v', mapOrNull f v = Some v' -> mapOrNull f v' = Some v'.
Proof.
  intros Hf v v'; destruct v; simpl; intro H; try discriminate;
    try (inversion H; reflexivity).
  destruct (omap f l) as [l'|] eqn:E; [|discriminate].
  inversion H; subst; simpl; rewrite (omap_fix f Hf _ _ E); reflexivity.
Qed.

(** What a second projection leaves of a projected item. *)
Definition reprojected (p : list (string * jsval)) : list (string * jsval) :=
  [("id", lookup p "id"); ("name", JStr "unknown"); ("url", JStr "");
   ("entityType", JStr "unknown"); ("description", JStr "");
   ("evaluations", lookup p "evaluations");
   ("enrichments", lookup p "enrichments")].

(** C8 (amended): projecting a projected item keeps its id, evaluations
    and enrichments but resets name, url, entityType and description to
    their defaults, because a projected item has no [properties]; so
    [projectItem (projectItem x) = projectItem x] exactly when those four
    fields of [projectItem x] already hold the defaults, and the second
    projection is a fixed point of [projectItem]. *)
Theorem projectItem_reprojection (item p : list (string * jsval)) :
  projectItem item = Some p ->
  projectItem p = Some (reprojected p) /\
  projectItem (reprojected p) = Some (reprojected p) /\
  (projectItem p = Some p <->
     lookup p "name" = JStr "unknown" /\ lookup p "url" = JStr "" /\
     lookup p "entityType" = JStr "unknown" /\ lookup p "description" = JStr "").
Proof.
  unfold projectItem.
  destruct (mapOrNull projectEval (lookup item "evaluations")) as [evs|] eqn:Ev;
    [|discriminate].
  destruct (mapOrNull projectEnrichmentResult (lookup item "enrichments")) as [ens|] eqn:En;
    [|discriminate].
  intro H; inversion H; subst p; clear H.
  pose proof (mapOrNull_fix _ projectEval_fix _ _ Ev) as Hev.
  pose proof (mapOrNull_fix _ projectEnrichmentResult_fix _ _ En) as Hen.
  remember (extractItemFields item) as fl eqn:Efl; clear Efl.
  unfold reprojected; simpl; rewrite Hev, Hen.
  split; [reflexivity|]. split; [reflexivity|].
  split.
  - intro H; inversion H; repeat split; reflexivity.
  - intros [E1 [E2 [E3 E4]]]; rewrite E1, E2, E3, E4; reflexivity.
Qed.

(** The raw fixture [makeItem] after one projection. *)
Definition projectedMakeItem : list (string * jsval) :=
  match projectItem makeItem with Some p => p | None => [] end.

Lemma projectItem_reprojection_witness :
  projectItem makeItem = Some projectedMakeItem /\
  projectItem projectedMakeItem = Some (reprojected projectedMakeItem).
Proof.
  split; [reflexivity|].
  exact (proj1 (projectItem_reprojection makeItem projectedMakeItem eq_refl)).
Defined.

(** C8 counterexample: on the company fixture of the projection tests,
    the second projection renames "Acme Corp" to "unknown". *)
Lemma projectItem_not_idempotent :
  projectItem makeItem = Some projectedMakeItem /\
  lookup projectedMakeItem "name" = JStr "Acme Corp" /\
  projectItem projectedMakeItem <> Some projectedMakeItem.
Proof.
  split; [reflexivity|]. split; [reflexivity|].
  vm_compute; intro H; inversion H.
Qed.

End ProjectionProofs.

Module ShapeProofs.
Import Shape.

(** C3: a missing ([null]/[undefined]) or empty enrichment result makes
    every operator, [exists] included, evaluate to [false]; [exists] is
    true exactly when the result has a first string and that string is
    non-empty. *)
Theorem evaluateCondition_missing_result
    (Number_ : string -> option Q) (regex_test : cvalue -> string -> option bool)
    (date_parse : string -> option Z) (now : Z) (cond : Condition)
    (res : option (list string)) :
  evaluateCondition Number_ regex_test date_parse now cond None = Some false /\
  evaluateCondition Number_ regex_test date_parse now cond (Some []) = Some false /\
  (forall (enrichment : string) (value : cvalue),
     evaluateCondition Number_ regex_test date_parse now
       (mkCondition enrichment "exists" value) res =
     Some (match res with
           | Some (r0 :: _) => negb (String.eqb r0 "")
           | _ => false
           end)).
Proof.
  unfold evaluateCondition.
  split; [destruct (String.eqb (c_operator cond) "exists"); reflexivity|].
  split; [destruct (String.eqb (c_operator cond) "exists"); reflexivity|].
  intros enrichment value; simpl.
  destruct res as [[|r0 rs]|]; [reflexivity| |reflexivity].
  destruct r0; reflexivity.
Qed.

End ShapeProofs.

Module SignalProofs.
Import Str Signal.

(** Whether one joined entity satisfies the signal rule. *)
Definition entitySatisfies (cfg : SignalConfig) (allLensIds : list string)
    (e : JoinedEntity) : bool :=
  match sc_type cfg with
  | RAll => forallb (fun id => mem id (je_presentInLenses e)) allLensIds
  | RAny => true
  | RThreshold =>
      Z.leb (match sc_min cfg with Some m => m | None => 2%Z end) (je_lensCount e)
  | RCombination =>
      existsb (fun combo => coversAll combo (je_presentInLenses e))
              (sufficient_or_nil cfg)
  end.

Lemma filter_nonempty {A : Type} (p : A -> bool) (l : list A) :
  negb (Nat.eqb (length (filter p l)) 0) = existsb p l.
Proof.
  induction l as [|x l IH]; simpl; [reflexivity|].
  destruct (p x); simpl; [reflexivity|exact IH].
Qed.

Lemma existsb_swap {A B : Type} (p : A -> B -> bool) (xs : list A) (ys : list B) :
  existsb (fun x => existsb (fun y => p x y) ys) xs =
  existsb (fun y => existsb (fun x => p x y) xs) ys.
Proof.
  induction xs as [|x xs IH]; simpl.
  - induction ys; simpl; auto.
  - rewrite IH. clear IH.
    induction ys as [|y ys IHy]; simpl; [reflexivity|].
    rewrite <- IHy.
    destruct (p x y), (existsb (fun x0 => p x0 y) xs),
             (existsb (fun y0 => p x y0) ys); reflexivity.
Qed.

Lemma firstMatchingCombo_fired (es : list JoinedEntity) (combos : list (list string)) :
  match firstMatchingCombo es combos with
  | Some (_, matching) => negb (Nat.eqb (length matching) 0)
  | None => false
  end =
  existsb (fun combo => existsb (fun e => coversAll combo (je_presentInLenses e)) es)
          combos.
Proof.
  induction combos as [|c cs IH]; simpl; [reflexivity|].
  rewrite <- (filter_nonempty (fun e => coversAll c (je_presentInLenses e)) es).
  destruct (filter (fun e => coversAll c (je_presentInLenses e)) es) eqn:E;
    simpl; [exact IH|reflexivity].
Qed.

(** C10: [evaluateSignal] picks its base by whether the join produced
    entities, not by the join mode. With no entities it evaluates the
    rule over [lensesWithEvidence] alone (any two join results with no
    entities and the same evidence give the same signal) and reports no
    entities; with entities it evaluates the rule per entity and fires
    exactly when some entity satisfies the rule. *)
Theorem evaluateSignal_base (jr : JoinResult) (cfg : SignalConfig)
    (allLensIds : list string) (r : SignalResult) :
  evaluateSignal jr cfg allLensIds = WOk r ->
  (jr_entities jr = [] ->
     r = evaluateSignalWithEvidence jr cfg allLensIds /\ sr_entities r = [] /\
     forall jr' : JoinResult,
       jr_entities jr' = [] ->
       jr_lensesWithEvidence jr' = jr_lensesWithEvidence jr ->
       evaluateSignal jr' cfg allLensIds = WOk r) /\
  (jr_entities jr <> [] ->
     r = evaluateSignalWithEntities jr cfg allLensIds /\
     sr_fired r = existsb (entitySatisfies cfg allLensIds) (jr_entities jr)).
Proof.
  unfold evaluateSignal.
  destruct (validateSignal cfg allLensIds) as [u|m st] eqn:Echk; [|discriminate].
  intro H. split.
  - intro Hnil. rewrite Hnil in H. simpl in H. inversion H; subst r. clear H.
    split; [reflexivity|]. split.
    + unfold evaluateSignalWithEvidence.
      destruct (sc_type cfg); simpl; try reflexivity.
      destruct (firstCoveredCombo (jr_lensesWithEvidence jr) (sufficient_or_nil cfg));
        reflexivity.
    + intros jr' Hnil' Hev. rewrite Hnil'. simpl. f_equal.
      unfold evaluateSignalWithEvidence. rewrite Hev. reflexivity.
  - intro Hne.
    assert (Hlen : negb (Nat.eqb (length (jr_entities jr)) 0) = true)
      by (destruct (jr_entities jr); [contradiction|reflexivity]).
    rewrite Hlen in H. inversion H; subst r; clear H.
    split; [reflexivity|].
    unfold evaluateSignalWithEntities, entitySatisfies.
    remember (jr_entities jr) as es eqn:Ees; clear Ees Hlen.
    destruct (sc_type cfg); simpl sr_fired.
    + apply filter_nonempty.
    + destruct es; [contradiction|reflexivity].
    + apply filter_nonempty.
    + rewrite existsb_swap, <- firstMatchingCombo_fired.
      destruct (firstMatchingCombo es (sufficient_or_nil cfg)) as [[c m]|];
        reflexivity.
Qed.

Definition sampleEntity : JoinedEntity :=
  mkJoinedEntity "Acme" "https://acme.com" ["hiring"; "press"] 2 [].

Lemma evaluateSignal_base_witness :
  evaluateSignal (mkJoinResult "temporal" [] ["hiring"; "press"])
    (mkSignalConfig RThreshold None None) ["hiring"; "press"; "patents"] =
    WOk (mkSignalResult true ["hiring"; "press"] "threshold" None []) /\
  sr_fired (evaluateSignalWithEntities
              (mkJoinResult "entity" [sampleEntity] ["hiring"; "press"])
              (mkSignalConfig RAll None None) ["hiring"; "press"; "patents"]) =
    existsb (entitySatisfies (mkSignalConfig RAll None None) ["hiring"; "press"; "patents"])
            [sampleEntity].
Proof.
  split; [reflexivity|].
  exact (proj2 (proj2 (evaluateSignal_base
           (mkJoinResult "entity" [sampleEntity] ["hiring"; "press"])
           (mkSignalConfig RAll None None) ["hiring"; "press"; "patents"] _ eq_refl)
           ltac:(discriminate))).
Defined.

End SignalProofs.

Module JoinProofs.
Import Str Signal Join.
Local Open Scope list_scope.

Section Matching.
Variable diceCoefficient : string -> string -> Q.

Lemma matchEntry_none (thr : Q) (lensId : string) (si : ShapedItem)
    (m : list (string * Entry)) :
  matchEntry diceCoefficient thr lensId si m = None ->
  forall k e, In (k, e) m ->
    (urlMatch si e || nameMatch diceCoefficient thr si e) = false.
Proof.
  induction m as [|[k0 e0] m IH]; simpl; [tauto|].
  destruct (urlMatch si e0 || nameMatch diceCoefficient thr si e0) eqn:E;
    [discriminate|].
  destruct (matchEntry diceCoefficient thr lensId si m) eqn:Em; [discriminate|].
  intros _ k e [H|H]; [inversion H; subst; exact E|exact (IH eq_refl k e H)].
Qed.

Lemma matchEntry_some (thr : Q) (lensId : string) (si : ShapedItem)
    (m m' : list (string * Entry)) :
  matchEntry diceCoefficient thr lensId si m = Some m' ->
  exists pre k e post,
    m = pre ++ (k, e) :: post /\
    (forall k' e', In (k', e') pre ->
       (urlMatch si e' || nameMatch diceCoefficient thr si e') = false) /\
    (urlMatch si e || nameMatch diceCoefficient thr si e) = true /\
    m' = pre ++ (k, foldInto lensId si e) :: post.
Proof.
  revert m'; induction m as [|[k0 e0] m IH]; simpl; intros m' H; [discriminate|].
  destruct (urlMatch si e0 || nameMatch diceCoefficient thr si e0) eqn:E.
  - inversion H; subst. exists [], k0, e0, m. simpl; repeat split; auto; tauto.
  - destruct (matchEntry diceCoefficient thr lensId si m) as [rest'|] eqn:Em;
      [|discriminate].
    inversion H; subst.
    destruct (IH rest' eq_refl) as (pre & k & e & post & Hm & Hpre & He & Hm').
    exists ((k0, e0) :: pre), k, e, post.
    subst; simpl; repeat split; auto.
    intros k' e' [Hk|Hk]; [inversion Hk; subst; exact E|exact (Hpre k' e' Hk)].
Qed.

End Matching.

(** C1 (amended): for a shaped item that matches no existing entry by
    URL, the entries are scanned in map order and the item is folded into
    the first entry [e] for which both the item's name and [e]'s canonical
    name are non-empty and [diceCoefficient(name, e.entity)] is strictly
    greater than the threshold ([nameThreshold], default 0.85); when there
    is none, a new entry is set under the key [url || name || id]. *)
Theorem processItem_name_fold (diceCoefficient : string -> string -> Q)
    (jc : JoinConfig) (lensId : string) (m : list (string * Entry))
    (si : ShapedItem) :
  (forall k e, In (k, e) m -> urlMatch si e = false) ->
  (exists pre k e post,
     m = pre ++ (k, e) :: post /\
     (forall k' e', In (k', e') pre ->
        nameMatch diceCoefficient (nameThreshold jc) si e' = false) /\
     nonEmpty (si_name si) = true /\ nonEmpty (en_entity e) = true /\
     Qlt (nameThreshold jc) (diceCoefficient (si_name si) (en_entity e)) /\
     processItem diceCoefficient jc lensId m si =
       pre ++ (k, foldInto lensId si e) :: post)
  \/
  ((forall k e, In (k, e) m ->
      nameMatch diceCoefficient (nameThreshold jc) si e = false) /\
   processItem diceCoefficient jc lensId m si =
     obj_set m (entryKey si) (newEntry lensId si)).
Proof.
  intro Hurl. unfold processItem.
  destruct (matchEntry diceCoefficient (nameThreshold jc) lensId si m) as [m'|] eqn:E.
  - left.
    destruct (matchEntry_some _ _ _ _ _ _ E) as (pre & k & e & post & Hm & Hpre & He & Hm').
    assert (Hin : In (k, e) m) by (subst m; apply in_or_app; simpl; auto).
    rewrite (Hurl k e Hin) in He. simpl in He.
    unfold nameMatch in He.
    apply andb_true_iff in He as [He1 He3]. apply andb_true_iff in He1 as [He1 He2].
    exists pre, k, e, post. repeat split; auto.
    + intros k' e' Hk'.
      assert (Hin' : In (k', e') m) by (subst m; apply in_or_app; auto).
      pose proof (Hpre k' e' Hk') as Hp. rewrite (Hurl k' e' Hin') in Hp. exact Hp.
    + apply negb_true_iff in He3.
      apply Qnot_le_lt. intro Hle. apply Qle_bool_iff in Hle. congruence.
  - right. split; [|reflexivity].
    intros k e Hin.
    pose proof (matchEntry_none _ _ _ _ _ E k e Hin) as Hn.
    rewrite (Hurl k e Hin) in Hn. exact Hn.
Qed.

Definition itemAt (id name url createdAt : string) : ShapedItem :=
  mkShapedItem id name url "company" [] createdAt [].

Definition witnessMap : list (string * Entry) :=
  [("https://acme.com",
    newEntry "hiring" (itemAt "i1" "Acme Robotics" "https://acme.com" "2024-01-01"))].

Definition witnessItem : ShapedItem :=
  itemAt "i2" "Acme Robotics Inc" "https://acme.io" "2024-01-02".

Definition witnessConfig : JoinConfig := mkJoinConfig ByEntity None None None.

Lemma processItem_name_fold_witness :
  (forall k e, In (k, e) witnessMap -> urlMatch witnessItem e = false) /\
  ((exists pre k e post,
     witnessMap = pre ++ (k, e) :: post /\
     (forall k' e', In (k', e') pre ->
        nameMatch diceSpec (nameThreshold witnessConfig) witnessItem e' = false) /\
     nonEmpty (si_name witnessItem) = true /\ nonEmpty (en_entity e) = true /\
     Qlt (nameThreshold witnessConfig) (diceSpec (si_name witnessItem) (en_entity e)) /\
     processItem diceSpec witnessConfig "press" witnessMap witnessItem =
       pre ++ (k, foldInto "press" witnessItem e) :: post)
   \/
   ((forall k e, In (k, e) witnessMap ->
       nameMatch diceSpec (nameThreshold witnessConfig) witnessItem e = false) /\
    processItem diceSpec witnessConfig "press" witnessMap witnessItem =
      obj_set witnessMap (entryKey witnessItem) (newEntry "press" witnessItem))).
Proof.
  assert (Hu : forall k e, In (k, e) witnessMap -> urlMatch witnessItem e = false).
  { intros k e [H|[]]; inversion H; subst; reflexivity. }
  split; [exact Hu|].
  exact (processItem_name_fold diceSpec witnessConfig "press" witnessMap witnessItem Hu).
Defined.

(** C1 counterexample: with [nameThreshold = 1], two items of two lenses
    with the same name "Acme" and different URLs have Dice coefficient 1,
    which is at least the threshold, yet the second is not folded into the
    first: the join keeps two single-lens entities. *)
Lemma join_equal_threshold_not_folded :
  let lrs := [mkLensResult "hiring" "ws_1" 1
                [itemAt "i1" "Acme" "https://acme.com" "2024-01-01"];
              mkLensResult "press" "ws_2" 1
                [itemAt "i2" "Acme" "https://acme.io" "2024-01-02"]] in
  let jc := mkJoinConfig ByEntity (Some 1) None (Some 1%Z) in
  diceSpec "Acme" "Acme" == 1 /\
  map je_presentInLenses (jr_entities (joinLensResults diceSpec (fun _ => None) lrs jc))
    = [["hiring"]; ["press"]].
Proof. split; [reflexivity|vm_compute; reflexivity]. Qed.

End JoinProofs.

Module TemporalJoinProofs.
Import Str Signal Join.

Lemma anyPair_sound (getTime : string -> option Z) (w : Q)
    (ts : list (string * string)) :
  anyPair getTime w ts = true ->
  exists a b, In a ts /\ In b ts /\ closeTs getTime w a b = true.
Proof.
  induction ts as [|a rest IH]; simpl; [discriminate|].
  intro H; apply orb_true_iff in H as [H|H].
  - apply existsb_exists in H as [b [Hb Hc]].
    exists a, b; auto.
  - destruct (IH H) as (x & y & Hx & Hy & Hc). exists x, y; auto.
Qed.

(** C4 (amended): with [join.by = "entity+temporal"],
    - when [temporal.days] is a non-zero number [d], every returned entity
      has an entry of the entity map with its entity name and URL whose
      recorded timestamps include two from distinct lenses, both parseable,
      at most [d * 86400000] ms apart;
    - when [temporal.days] is absent or 0, no temporal filter is applied:
      the returned entities are those of the entity map whose lens count
      is at least [minLensOverlap] (default 2). *)
Theorem entityTemporal_window (diceCoefficient : string -> string -> Q)
    (getTime : string -> option Z) (lrs : list LensResult) (jc : JoinConfig) :
  jc_by jc = ByEntityTemporal ->
  (forall (d : Q) (ent : JoinedEntity),
     jc_temporalDays jc = Some d ->
     ~ (d == 0) ->
     In ent (jr_entities (joinLensResults diceCoefficient getTime lrs jc)) ->
     exists entry,
       In entry (map snd (buildEntityMap diceCoefficient jc lrs)) /\
       en_entity entry = je_entity ent /\ en_url entry = je_url ent /\
       exists a b ta tb,
         In a (en_timestamps entry) /\ In b (en_timestamps entry) /\
         fst a <> fst b /\
         getTime (snd a) = Some ta /\ getTime (snd b) = Some tb /\
         inject_Z (Z.abs (ta - tb)) <= d * inject_Z 86400000) /\
  ((forall d : Q, jc_temporalDays jc = Some d -> d == 0) ->
   jr_entities (joinLensResults diceCoefficient getTime lrs jc) =
     filter (fun e => Z.leb (minOverlap jc) (je_lensCount e))
            (map toJoined (map snd (buildEntityMap diceCoefficient jc lrs)))).
Proof.
  intros Hby. split.
  - intros d ent Hd Hnz Hin.
    unfold joinLensResults in Hin. rewrite Hby, Hd in Hin.
    replace (Qeq_bool d 0) with false in Hin.
    2:{ symmetry. apply not_true_iff_false. intro E. apply Hnz. apply Qeq_bool_iff. exact E. }
    simpl in Hin.
    apply filter_In in Hin as [Hin _].
    apply filter_In in Hin as [_ Ht].
    unfold temporalOk in Ht.
    destruct (find _ _) as [entry|] eqn:F; [|discriminate].
    apply find_some in F as [Fin Feq].
    apply andb_true_iff in Feq as [F1 F2].
    apply String.eqb_eq in F1. apply String.eqb_eq in F2.
    exists entry. split; [exact Fin|]. split; [exact F1|]. split; [exact F2|].
    destruct (anyPair_sound _ _ _ Ht) as (a & b & Ha & Hb & Hc).
    unfold closeTs in Hc.
    apply andb_true_iff in Hc as [Hl Hw].
    destruct (getTime (snd a)) as [ta|] eqn:Ea; [|discriminate].
    destruct (getTime (snd b)) as [tb|] eqn:Eb; [|discriminate].
    exists a, b, ta, tb. repeat split; auto.
    + intro Heq. rewrite Heq, String.eqb_refl in Hl. discriminate.
    + apply Qle_bool_iff. exact Hw.
  - intros Hz. unfold joinLensResults. rewrite Hby.
    destruct (jc_temporalDays jc) as [d|] eqn:Hd; [|reflexivity].
    replace (Qeq_bool d 0) with true; [reflexivity|].
    symmetry. apply Qeq_bool_iff. exact (Hz d eq_refl).
Qed.

(** A parser for the two instants used below (milliseconds since epoch). *)
Definition sampleGetTime (s : string) : option Z :=
  if String.eqb s "2024-01-01T00:00:00Z" then Some 1704067200000%Z
  else if String.eqb s "2024-01-03T00:00:00Z" then Some 1704240000000%Z
  else None.

Definition temporalLenses : list LensResult :=
  [mkLensResult "hiring" "ws_1" 1
     [mkShapedItem "i1" "Acme" "https://acme.com" "company" [] "2024-01-01T00:00:00Z" []];
   mkLensResult "press" "ws_2" 1
     [mkShapedItem "i2" "Acme" "https://acme.com" "company" [] "2024-01-03T00:00:00Z" []]].

Definition temporalConfig : JoinConfig :=
  mkJoinConfig ByEntityTemporal None (Some 7) None.

Definition acmeJoined : JoinedEntity :=
  mkJoinedEntity "Acme" "https://acme.com" ["hiring"; "press"] 2
    [("hiring", []); ("press", [])].

(** A single lens with one item, and [temporal.days = 0] with
    [minLensOverlap = 1]. *)
Definition singleLens : list LensResult :=
  [mkLensResult "hiring" "ws_1" 1
     [mkShapedItem "i1" "Acme" "https://acme.com" "company" [] "2024-01-01T00:00:00Z" []]].

Definition zeroDaysConfig : JoinConfig :=
  mkJoinConfig ByEntityTemporal None (Some 0) (Some 1%Z).

Lemma entityTemporal_window_witness :
  (jr_entities (joinLensResults diceSpec sampleGetTime temporalLenses temporalConfig)
     = [acmeJoined] /\
   exists entry,
     In entry (map snd (buildEntityMap diceSpec temporalConfig temporalLenses)) /\
     en_entity entry = je_entity acmeJoined /\ en_url entry = je_url acmeJoined /\
     exists a b ta tb,
       In a (en_timestamps entry) /\ In b (en_timestamps entry) /\
       fst a <> fst b /\
       sampleGetTime (snd a) = Some ta /\ sampleGetTime (snd b) = Some tb /\
       inject_Z (Z.abs (ta - tb)) <= 7 * inject_Z 86400000) /\
  map je_presentInLenses
    (jr_entities (joinLensResults diceSpec sampleGetTime singleLens zeroDaysConfig))
    = [["hiring"]].
Proof.
  assert (E : jr_entities (joinLensResults diceSpec sampleGetTime temporalLenses temporalConfig)
                = [acmeJoined]) by (vm_compute; reflexivity).
  split; [split; [exact E|]|].
  - destruct (entityTemporal_window diceSpec sampleGetTime temporalLenses temporalConfig eq_refl)
      as [H1 _].
    apply (H1 7 acmeJoined eq_refl); [intro H; vm_compute in H; discriminate H|].
    rewrite E; left; reflexivity.
  - destruct (entityTemporal_window diceSpec sampleGetTime singleLens zeroDaysConfig eq_refl)
      as [_ H2].
    rewrite H2; [vm_compute; reflexivity|].
    intros d Hd. injection Hd as <-. vm_compute. reflexivity.
Defined.

(** C4 counterexample: with [join.by = "entity+temporal"], no
    [temporal.days] and [minLensOverlap = 1], an entity seen by a single
    lens is returned. *)
Lemma entityTemporal_single_lens_returned :
  map je_presentInLenses
    (jr_entities (joinLensResults diceSpec sampleGetTime
       [mkLensResult "hiring" "ws_1" 1
          [mkShapedItem "i1" "Acme" "https://acme.com" "company" []
                        "2024-01-01T00:00:00Z" []]]
       (mkJoinConfig ByEntityTemporal None None (Some 1%Z))))
  = [["hiring"]].
Proof. vm_compute; reflexivity. Qed.

End TemporalJoinProofs.

Module WinnowProofs.
Import Str Winnow.

Definition bit (b : bool) : ascii := if b then "1"%char else "0"%char.

Fixpoint nicheStr (v : list bool) : string :=
  match v with
  | [] => EmptyString
  | [b] => String (bit b) EmptyString
  | b :: v' => String (bit b) (String ","%char (nicheStr v'))
  end.

Lemma niche_shape (v : list bool) :
  join "," (map (fun b : bool => if b then "1" else "0") v) = nicheStr v.
Proof.
  induction v as [|b v IH]; [reflexivity|].
  destruct v as [|b' v']; [destruct b; reflexivity|].
  change (join "," (map (fun b : bool => if b then "1" else "0") (b :: b' :: v')))
    with ((if b then "1" else "0") ++ "," ++
          join "," (map (fun b : bool => if b then "1" else "0") (b' :: v'))).
  rewrite IH. destruct b; reflexivity.
Qed.

Fixpoint allChars (p : ascii -> bool) (s : string) : bool :=
  match s with
  | EmptyString => true
  | String c s' => p c && allChars p s'
  end.

Fixpoint countChars (p : ascii -> bool) (s : string) : nat :=
  match s with
  | EmptyString => 0
  | String c s' => (if p c then 1 else 0) + countChars p s'
  end.

Definition isBit (c : ascii) : bool := Ascii.eqb c "0" || Ascii.eqb c "1".

Lemma allChars_cons2 (p : ascii -> bool) (a b : ascii) (s : string) :
  allChars p (String a (String b s)) = p a && (p b && allChars p s).
Proof. reflexivity. Qed.

Lemma countChars_cons2 (p : ascii -> bool) (a b : ascii) (s : string) :
  countChars p (String a (String b s)) =
  ((if p a then 1 else 0) + ((if p b then 1 else 0) + countChars p s))%nat.
Proof. reflexivity. Qed.

(** C5 (amended): for N criteria the niche key is the N digits of the
    criteria vector joined by commas: its length is [2N - 1] (0 when
    there are no criteria), every character is '0', '1' or ',', and it
    holds exactly N digit characters, the i-th being '1' iff criterion
    [i] is satisfied. *)
Theorem classifyItem_niche_shape (evaluations : list Evaluation)
    (criteria : list string) :
  let n := cn_niche (classifyItem evaluations criteria) in
  String.length n = (2 * length criteria - 1)%nat /\
  allChars (fun c => isBit c || Ascii.eqb c ",") n = true /\
  countChars isBit n = length criteria /\
  length (cn_vector (classifyItem evaluations criteria)) = length criteria /\
  n = nicheStr (cn_vector (classifyItem evaluations criteria)).
Proof.
  cbn zeta. unfold classifyItem; simpl cn_niche; simpl cn_vector.
  rewrite niche_shape, length_map.
  set (f := fun c => match find (fun e => String.eqb (ev_criterion e) c) evaluations with
                     | Some e => String.eqb (ev_satisfied e) "yes"
                     | None => false
                     end).
  rewrite <- (length_map f criteria).
  generalize (map f criteria) as v. intro v.
  split; [|split; [|split; [|split; [reflexivity|reflexivity]]]].
  - induction v as [|b v IH]; [reflexivity|].
    destruct v as [|b' v']; [reflexivity|].
    simpl in *. rewrite IH. lia.
  - induction v as [|b v IH]; [reflexivity|].
    destruct v as [|b' v']; [destruct b; reflexivity|].
    change (nicheStr (b :: b' :: v')) with (String (bit b) (String ","%char (nicheStr (b' :: v')))).
    rewrite allChars_cons2, IH. destruct b; reflexivity.
  - induction v as [|b v IH]; [reflexivity|].
    destruct v as [|b' v']; [destruct b; reflexivity|].
    change (nicheStr (b :: b' :: v')) with (String (bit b) (String ","%char (nicheStr (b' :: v')))).
    rewrite countChars_cons2, IH. destruct b; reflexivity.
Qed.

(** C5 counterexample: the qd.winnow test "classifies item with all
    criteria satisfied" has two criteria and niche "1,1", of length 3
    and containing ','. *)
Lemma classifyItem_niche_not_length_n :
  let c := classifyItem [mkEvaluation "Founded after 2015" "yes";
                         mkEvaluation "Has research" "yes"]
                        ["Founded after 2015"; "Has research"] in
  cn_niche c = "1,1" /\ String.length (cn_niche c) = 3%nat /\
  allChars isBit (cn_niche c) = false.
Proof. repeat split; reflexivity. Qed.

End WinnowProofs.

(* ------------------------------------------------------------------ *)
Module RuntimeProofs.
Import Runtime.
Local Open Scope Z_scope.
Local Open Scope string_scope.

Definition pausedError : Err := JsError "Webset was paused unexpectedly".

Ltac run H :=
  cbv beta iota delta [bind ret throw stuck record websetsGet dateNow isCancelled
                       websetsCancel sleep updateProgress collectItems] in H.

Lemma pollLoop_throw_only_paused clock getResp cancelledAt fuel :
  forall websetId deadline stepNum totalSteps st e st',
  pollLoop clock getResp cancelledAt fuel websetId deadline stepNum totalSteps st
    = (OThrow e, st') -> e = pausedError.
Proof.
  induction fuel as [|fuel IH]; intros websetId deadline stepNum totalSteps st e st' H;
    simpl in H; run H; [discriminate|].
  simpl in H.
  destruct (String.eqb (ws_status (getResp (n_get st))) "idle"); [discriminate|].
  destruct (String.eqb (ws_status (getResp (n_get st))) "paused").
  { inversion H; reflexivity. }
  simpl in H.
  destruct (Z.leb deadline (clock (n_now st))); [discriminate|].
  destruct (ws_progress (getResp (n_get st))); simpl in H;
    (destruct (cancelledAt (n_cancel st)); [discriminate|]); eapply IH; exact H.
Qed.

Lemma pollUntilIdle_throw_only_paused clock getResp cancelledAt fuel
    websetId timeoutMs stepNum totalSteps st e st' :
  pollUntilIdle clock getResp cancelledAt fuel websetId timeoutMs stepNum totalSteps st
    = (OThrow e, st') -> e = pausedError.
Proof.
  unfold pollUntilIdle. cbv beta iota delta [bind dateNow]. simpl.
  apply pollLoop_throw_only_paused.
Qed.

Lemma collectGo_firstn cap xs :
  forall n, Z.of_nat n < cap ->
  collectGo cap n xs = firstn (Z.to_nat cap - n) xs.
Proof.
  induction xs as [|x xs IH]; intros n Hn; cbn [collectGo].
  - destruct (Z.to_nat cap - n)%nat; reflexivity.
  - destruct (Z.leb cap (Z.of_nat (S n))) eqn:E.
    + apply Z.leb_le in E.
      replace (Z.to_nat cap - n)%nat with 1%nat by lia. reflexivity.
    + apply Z.leb_gt in E.
      replace (Z.to_nat cap - n)%nat with (S (Z.to_nat cap - S n)) by lia.
      cbn [firstn]. f_equal. apply IH. exact E.
Qed.

Lemma collectGo_cap cap xs : 1 <= cap -> collectGo cap 0 xs = firstn (Z.to_nat cap) xs.
Proof.
  intro H. rewrite collectGo_firstn by (simpl; lia). f_equal. lia.
Qed.

(** The run of [harvestAfterPoll] when the task is not cancelled at the
    checkpoint after polling. *)
Lemma harvestAfterPoll_completes clock cancelledAt listing args startTime steps
    websetId step2 ws timedOut st :
  cancelledAt (n_cancel st) = false ->
  exists r st',
    harvestAfterPoll clock cancelledAt listing args startTime steps websetId step2
      (ws, timedOut) st = (ORet (Some r), st') /\
    hr_websetId r = websetId /\ hr_timedOut r = timedOut /\
    hr_items r = collectGo (harvestCount args * 2) 0 (listing websetId).
Proof.
  intro H. unfold harvestAfterPoll. cbv beta iota delta
    [bind ret record dateNow isCancelled updateProgress collectItems]. simpl.
  rewrite H.
  destruct (ha_cleanup args) as [[|]|]; simpl; eexists; eexists;
    (split; [reflexivity|]); repeat split.
Qed.

Lemma harvestAfterPoll_items clock cancelledAt listing args startTime steps
    websetId step2 polled st r st' :
  harvestAfterPoll clock cancelledAt listing args startTime steps websetId step2
    polled st = (ORet (Some r), st') ->
  hr_items r = collectGo (harvestCount args * 2) 0 (listing websetId).
Proof.
  destruct polled as [ws timedOut].
  destruct (cancelledAt (n_cancel st)) eqn:Ec.
  - unfold harvestAfterPoll. cbv beta iota delta
      [bind ret record dateNow isCancelled updateProgress collectItems]. simpl.
    rewrite Ec. discriminate.
  - destruct (harvestAfterPoll_completes clock cancelledAt listing args startTime steps
      websetId step2 ws timedOut st Ec) as (r0 & st0' & Hrun & _ & _ & Hitems).
    rewrite Hrun. intro E. inversion E; subst. exact Hitems.
Qed.

Lemma semanticCronCollect_run listing lenses websetIds :
  forall st,
  fst (semanticCronCollect listing lenses websetIds st) =
  ORet (map (fun l => (fst l, firstn 1000 (listing (websetOf websetIds (fst l))))) lenses).
Proof.
  induction lenses as [|[lensId c] rest IH]; intro st; [reflexivity|].
  cbn [semanticCronCollect]. unfold bind at 1, collectItems, bind at 1, record, ret at 1.
  rewrite collectGo_cap by lia.
  unfold bind at 1.
  specialize (IH (mkSt (n_now st) (n_get st) (n_cancel st)
                  (calls st ++ [CListAll (websetOf websetIds lensId)])%list)).
  destruct (semanticCronCollect listing rest websetIds _) as [[a| |] st''] eqn:E;
    simpl in IH |- *; try discriminate.
  inversion IH; subst. reflexivity.
Qed.

(** A concrete environment: the clock advances one second per reading, the
    webset keeps running, and its listing yields 30 items. *)
Definition sClock (n : nat) : Z := Z.of_nat n * 1000.
Definition sGet (_ : nat) : Webset := mkWebset "ws_1" "running" (Some (3, 40)).
Definition neverCancelled (_ : nat) : bool := false.
Definition cancelledFrom (k n : nat) : bool := Nat.leb k n.
Definition sCreated : Webset := mkWebset "ws_1" "running" None.
Definition sItem : jsval := JObj [("id", JStr "item")].
Definition sListing (_ : string) : list jsval := repeat sItem 30.
Definition sArgs : HarvestArgs :=
  mkHarvestArgs (JStr "AI infrastructure startups") (JObj [("type", JStr "company")])
    None (Some 5) None (Some 1000) None.

(** lifecycle.harvest with a 1 s timeout and count 5 on a webset that never
    becomes idle: the poll times out and the run still returns a result. *)
Lemma lifecycle_timeout_scenario :
  exists r st,
    lifecycleHarvest sClock sGet neverCancelled sCreated sListing 5 sArgs st0
      = (ORet (Some r), st) /\
    hr_websetId r = "ws_1" /\ hr_timedOut r = true /\ hr_itemCount r = 10.
Proof. do 2 eexists. split; [vm_compute; reflexivity|]. vm_compute. auto. Qed.

(** C7: once [pollUntilIdle]'s deadline has passed at a check where the
    fetched webset is neither idle nor paused, the poll returns that webset
    with [timedOut = true]; the only error it throws is the paused error; and
    lifecycle.harvest, after a timed-out poll and without cancellation at
    the next checkpoint, returns a result carrying the webset id and
    [timedOut: true]. *)
Theorem pollUntilIdle_timeout_flag :
  (forall clock getResp cancelledAt fuel websetId deadline stepNum totalSteps st,
     String.eqb (ws_status (getResp (n_get st))) "idle" = false ->
     String.eqb (ws_status (getResp (n_get st))) "paused" = false ->
     Z.leb deadline (clock (n_now st)) = true ->
     fst (pollLoop clock getResp cancelledAt (S fuel) websetId deadline stepNum totalSteps st)
       = ORet (getResp (n_get st), true)) /\
  (forall clock getResp cancelledAt fuel websetId timeoutMs stepNum totalSteps st e st',
     pollUntilIdle clock getResp cancelledAt fuel websetId timeoutMs stepNum totalSteps st
       = (OThrow e, st') ->
     e = JsError "Webset was paused unexpectedly") /\
  (forall clock cancelledAt listing args startTime steps websetId step2 ws st,
     cancelledAt (n_cancel st) = false ->
     exists r,
       fst (harvestAfterPoll clock cancelledAt listing args startTime steps websetId step2
              (ws, true) st) = ORet (Some r) /\
       hr_websetId r = websetId /\ hr_timedOut r = true).
Proof.
  split; [|split].
  - intros clock getResp cancelledAt fuel websetId deadline stepNum totalSteps st Hi Hp Hd.
    simpl. cbv beta iota delta [bind ret websetsGet dateNow]. simpl.
    rewrite Hi, Hp. simpl. rewrite Hd. reflexivity.
  - intros. eapply pollUntilIdle_throw_only_paused. eassumption.
  - intros clock cancelledAt listing args startTime steps websetId step2 ws st H.
    destruct (harvestAfterPoll_completes clock cancelledAt listing args startTime steps
      websetId step2 ws true st H) as (r & st' & Hrun & Hid & Hto & _).
    exists r. rewrite Hrun. auto.
Qed.

Lemma pollUntilIdle_timeout_flag_witness :
  fst (pollLoop sClock sGet neverCancelled 1 "ws_1" 7000 2 4 (mkSt 7 0 2 []))
    = ORet (sGet 0, true) /\
  (exists r,
     fst (harvestAfterPoll sClock neverCancelled sListing sArgs 0
            [("validate", 1000); ("create", 1000)] "ws_1" 5000 (sGet 0, true)
            (mkSt 8 1 2 [])) = ORet (Some r) /\
     hr_websetId r = "ws_1" /\ hr_timedOut r = true).
Proof.
  destruct pollUntilIdle_timeout_flag as [H1 [_ H3]]. split.
  - apply (H1 sClock sGet neverCancelled 0%nat "ws_1" 7000 2 4 (mkSt 7 0 2 []));
      reflexivity.
  - apply (H3 sClock neverCancelled sListing sArgs 0 [("validate", 1000); ("create", 1000)]
             "ws_1" 5000 (sGet 0) (mkSt 8 1 2 [])); reflexivity.
Defined.

(** C9 (amended): [collectItems] with a cap of at least 1 returns the first
    [cap] items of the listing; without a cap it uses 1000; lifecycle.harvest
    passes [2 * count]; the collect step of semantic.cron passes no cap, so
    each lens is collected up to 1000 items whatever its [source.count]. *)
Theorem collectItems_default_cap :
  (forall listing websetId cap st,
     1 <= cap ->
     fst (collectItems listing websetId (Some cap) st)
       = ORet (firstn (Z.to_nat cap) (listing websetId))) /\
  (forall listing websetId st,
     fst (collectItems listing websetId None st) = ORet (firstn 1000 (listing websetId))) /\
  (forall clock cancelledAt listing args startTime steps websetId step2 polled st r st',
     1 <= harvestCount args ->
     harvestAfterPoll clock cancelledAt listing args startTime steps websetId step2 polled st
       = (ORet (Some r), st') ->
     hr_items r = firstn (Z.to_nat (harvestCount args * 2)) (listing websetId)) /\
  (forall listing lenses websetIds st,
     fst (semanticCronCollect listing lenses websetIds st) =
     ORet (map (fun l => (fst l, firstn 1000 (listing (websetOf websetIds (fst l))))) lenses)).
Proof.
  split; [|split; [|split]].
  - intros listing websetId cap st H. simpl. rewrite collectGo_cap by exact H. reflexivity.
  - intros. simpl. rewrite collectGo_cap by lia. reflexivity.
  - intros clock cancelledAt listing args startTime steps websetId step2 polled st r st' Hc H.
    rewrite (harvestAfterPoll_items _ _ _ _ _ _ _ _ _ _ _ _ H).
    apply collectGo_cap. lia.
  - intros. apply semanticCronCollect_run.
Qed.

Lemma collectItems_default_cap_witness :
  fst (collectItems sListing "ws_1" (Some 10) st0) = ORet (firstn 10 (sListing "ws_1")) /\
  (forall r st',
     harvestAfterPoll sClock neverCancelled sListing sArgs 0 [] "ws_1" 5000 (sGet 0, true)
       (mkSt 8 1 2 []) = (ORet (Some r), st') ->
     hr_items r = firstn 10 (sListing "ws_1")).
Proof.
  destruct collectItems_default_cap as [H1 [_ [H3 _]]]. split.
  - apply (H1 sListing "ws_1" 10 st0). lia.
  - intros r st' H.
    apply (H3 sClock neverCancelled sListing sArgs 0 [] "ws_1" 5000 (sGet 0, true)
             (mkSt 8 1 2 []) r st'); [unfold harvestCount, sArgs; simpl; lia | exact H].
Defined.

(** C9 counterexample: a semantic.cron lens whose [source.count] is 10,
    over a webset listing 30 items, is collected in full: 30 items, more
    than [2 * count = 20]. *)
Lemma semanticCron_collect_ignores_count :
  fst (semanticCronCollect sListing [("hiring", Some 10)] [("hiring", "ws_h")] st0)
    = ORet [("hiring", repeat sItem 30)] /\
  (length (repeat sItem 30) > 2 * 10)%nat.
Proof. split; [vm_compute; reflexivity | simpl; lia]. Qed.

(** C6 counterexample: lifecycle.harvest whose task is cancelled at its
    third cancellation check, the one after polling: the run returns [null]
    after creating webset ws_1, and no [exa.websets.cancel] call is made. *)
Lemma lifecycle_cancel_after_poll_skips_cancel :
  fst (lifecycleHarvest sClock sGet (cancelledFrom 2) sCreated sListing 5 sArgs st0)
    = ORet None /\
  calls (snd (lifecycleHarvest sClock sGet (cancelledFrom 2) sCreated sListing 5 sArgs st0))
    = [CProgress "creating" 1 4; CCreate (JStr "AI infrastructure startups");
       CProgress "polling" 2 4; CGet "ws_1"] /\
  n_cancel (snd (lifecycleHarvest sClock sGet (cancelledFrom 2) sCreated sListing 5 sArgs st0))
    = 3%nat /\
  cancelledFrom 2 2 = true.
Proof. vm_compute. repeat split. Qed.

End RuntimeProofs.

(* ------------------------------------------------------------------ *)
Module TemplateProofs.
Import Templates.
Local Open Scope string_scope.

(** A semantic.cron configuration whose lens query uses [{{company}}]. *)
Definition cronConfig : jsval :=
  JObj [("name", JStr "hiring-watch");
        ("lenses", JArr [JObj [("id", JStr "hiring");
                               ("source", JObj [("query", JStr "{{company}} engineering hiring");
                                                ("entity", JObj [("type", JStr "company")]);
                                                ("count", JNum 10)])]]);
        ("shapes", JArr [JObj [("lensId", JStr "hiring");
                               ("conditions", JArr [JObj [("enrichment", JStr "open roles");
                                                          ("operator", JStr "gte");
                                                          ("value", JNum 5)]]);
                               ("logic", JStr "all")]]);
        ("join", JObj [("by", JStr "entity")]);
        ("signal", JObj [("requires", JObj [("type", JStr "any")])])].

(** The value [Acme "Labs"]. *)
Definition quotedValue : string := "Acme " ++ Str.dq ++ "Labs" ++ Str.dq.

(** The value [{{region}}], written with backslashes. *)
Definition escapedBraces : string := bs ++ "u007b" ++ bs ++ "u007bregion}}".

(** C2: template values are spliced into the JSON text unescaped. A value
    holding a double quote makes [JSON.parse] throw a syntax error, not a
    validation error; a value spelling braces as JSON escapes passes the
    residual scan and yields a configuration whose text holds the residual
    token [{{region}}]. A plain value expands cleanly. *)
Theorem expandTemplates_unescaped_values :
  expandTemplates cronConfig [("company", "Acme")] <> SyntaxError /\
  expandTemplates cronConfig [("company", quotedValue)] = SyntaxError /\
  (exists config,
     expandTemplates cronConfig [("company", escapedBraces)] = Expanded config /\
     matchTokens (stringify config) = ["{{region}}"]).
Proof.
  split; [vm_compute; discriminate|]. split; [vm_compute; reflexivity|].
  eexists. split; [vm_compute; reflexivity | vm_compute; reflexivity].
Qed.

End TemplateProofs.

Module AssocFacts.
Import Str.
Local Open Scope list_scope.

Fixpoint distinct (l : list string) : bool :=
  match l with
  | [] => true
  | x :: l' => negb (mem x l') && distinct l'
  end.

Definition assoc {V : Type} (m : list (string * V)) (k : string) : option V :=
  option_map snd (find (fun kv => String.eqb (fst kv) k) m).

Lemma mem_In x l : mem x l = true <-> In x l.
Proof.
  unfold mem. rewrite existsb_exists. split.
  - intros [y [Hy E]]. apply String.eqb_eq in E. subst. exact Hy.
  - intro H. exists x. split; [exact H | apply String.eqb_refl].
Qed.

Lemma distinct_NoDup l : distinct l = true -> NoDup l.
Proof.
  induction l as [|x l IH]; simpl; intro H; constructor.
  - apply andb_true_iff in H as [H _]. rewrite <- mem_In. destruct (mem x l); simpl in *; congruence.
  - apply andb_true_iff in H as [_ H]. auto.
Qed.

Lemma assoc_obj_set {V : Type} (m : list (string * V)) k v k' :
  assoc (Join.obj_set m k v) k' = if String.eqb k k' then Some v else assoc m k'.
Proof.
  unfold assoc. induction m as [|[k0 v0] m IH]; simpl.
  - destruct (String.eqb k k'); reflexivity.
  - destruct (String.eqb k k0) eqn:E0; simpl.
    + apply String.eqb_eq in E0; subst. destruct (String.eqb k0 k'); reflexivity.
    + destruct (String.eqb k0 k') eqn:E1; simpl.
      * apply String.eqb_eq in E1; subst. rewrite E0. reflexivity.
      * exact IH.
Qed.

Lemma find_app {A : Type} (p : A -> bool) (l1 l2 : list A) :
  find p (l1 ++ l2) = match find p l1 with Some x => Some x | None => find p l2 end.
Proof. induction l1 as [|x l1 IH]; simpl; [reflexivity|]. destruct (p x); auto. Qed.

Lemma assoc_fold_obj_set {A V : Type} (key : A -> string) (val : A -> V) xs acc k :
  assoc (fold_left (fun acc x => Join.obj_set acc (key x) (val x)) xs acc) k =
  match find (fun x => String.eqb (key x) k) (rev xs) with
  | Some x => Some (val x)
  | None => assoc acc k
  end.
Proof.
  revert acc. induction xs as [|x xs IH]; intro acc; simpl; [reflexivity|].
  rewrite IH, find_app. simpl. rewrite assoc_obj_set.
  destruct (find _ (rev xs)); [reflexivity|].
  destruct (String.eqb (key x) k); reflexivity.
Qed.

Lemma keys_obj_set {V : Type} (m : list (string * V)) k v :
  map fst (Join.obj_set m k v) =
  if mem k (map fst m) then map fst m else map fst m ++ [k].
Proof.
  induction m as [|[k0 v0] m IH]; simpl; [reflexivity|].
  unfold mem in *. simpl.
  destruct (String.eqb k k0) eqn:E; simpl.
  - apply String.eqb_eq in E; subst. reflexivity.
  - rewrite IH. destruct (existsb _ _); reflexivity.
Qed.

Lemma mem_app x a b : mem x (a ++ b) = mem x a || mem x b.
Proof. unfold mem. apply existsb_app. Qed.

Lemma find_key_none {V : Type} (r : list (string * V)) k :
  ~ In k (map fst r) -> find (fun x => String.eqb (fst x) k) r = None.
Proof.
  induction r as [|[k0 v0] r IH]; simpl; intro H; [reflexivity|].
  destruct (String.eqb k0 k) eqn:E.
  - apply String.eqb_eq in E. exfalso. auto.
  - auto.
Qed.

Lemma find_rev_distinct {V : Type} (r : list (string * V)) k :
  distinct (map fst r) = true ->
  find (fun x => String.eqb (fst x) k) (rev r) = find (fun x => String.eqb (fst x) k) r.
Proof.
  induction r as [|[k0 v0] r IH]; intro H; [reflexivity|].
  cbn [distinct map fst rev] in *. apply andb_true_iff in H as [Hn Hd].
  rewrite find_app, IH by exact Hd. simpl.
  destruct (String.eqb k0 k) eqn:E.
  - apply String.eqb_eq in E; subst.
    apply negb_true_iff in Hn.
    rewrite find_key_none; [reflexivity|].
    intro Hin. apply mem_In in Hin. congruence.
  - destruct (find _ r); reflexivity.
Qed.

End AssocFacts.

Module HelperProofs.
Import Str AssocFacts Helpers Projections.
Local Open Scope list_scope.

Lemma lookup_assoc m k :
  lookup m k = match assoc m k with Some v => v | None => JUndef end.
Proof.
  unfold assoc. induction m as [|[k0 v0] m IH]; simpl; [reflexivity|].
  rewrite String.eqb_sym. destruct (String.eqb k0 k); [reflexivity|exact IH].
Qed.

Lemma keys_fold_obj_set (r acc : list (string * jsval)) :
  distinct (map fst r) = true ->
  map fst (fold_left (fun acc kv => Join.obj_set acc (fst kv) (snd kv)) r acc) =
  map fst acc ++ filter (fun k => negb (mem k (map fst acc))) (map fst r).
Proof.
  revert acc. induction r as [|[k0 v0] r IH]; intros acc H; simpl.
  - rewrite app_nil_r. reflexivity.
  - cbn [distinct map fst] in H. apply andb_true_iff in H as [Hn Hd].
    rewrite IH by exact Hd. rewrite keys_obj_set.
    destruct (mem k0 (map fst acc)) eqn:E; simpl.
    + reflexivity.
    + rewrite <- app_assoc. simpl. f_equal. f_equal.
      apply filter_ext_in. intros x Hx.
      rewrite mem_app. simpl.
      destruct (String.eqb x k0) eqn:Ex.
      * apply String.eqb_eq in Ex; subst.
        apply negb_true_iff in Hn. apply mem_In in Hx. congruence.
      * rewrite orb_false_r. reflexivity.
Qed.

(** For a result with distinct keys none of which is an array index, withSummary puts a [_summary] key first, followed by the keys of the result other than [_summary] in their order; a key of the result keeps its value (an own [_summary] included), and a [_summary] key absent from the result reads the summary string. *)
Theorem withSummary_spread (result : list (string * jsval)) (summary : string) :
  distinct (map fst result) = true ->
  forallb (fun k => negb (isArrayIndex k)) (map fst result) = true ->
  map fst (withSummary result summary) =
    "_summary" :: filter (fun k => negb (String.eqb k "_summary")) (map fst result) /\
  (forall k, lookup (withSummary result summary) k =
             if mem k (map fst result) then lookup result k
             else if String.eqb k "_summary" then JStr summary else JUndef).
Proof.
  intros H _. split.
  - unfold withSummary. rewrite keys_fold_obj_set by exact H. simpl. f_equal.
    apply filter_ext. intro k. unfold mem. simpl. rewrite orb_false_r. reflexivity.
  - intro k. unfold withSummary. rewrite lookup_assoc.
    rewrite (assoc_fold_obj_set fst snd), find_rev_distinct by exact H.
    rewrite (lookup_assoc result k). unfold assoc.
    destruct (mem k (map fst result)) eqn:Em.
    + apply mem_In in Em. destruct (find _ result) as [[k1 v1]|] eqn:Ef; [reflexivity|].
      exfalso. apply in_map_iff in Em as [[k2 v2] [E2 Hin]]. simpl in E2; subst.
      assert (Hc := find_none _ _ Ef _ Hin). simpl in Hc. rewrite String.eqb_refl in Hc. discriminate.
    + rewrite find_key_none.
      * cbn [find fst option_map snd]. rewrite (String.eqb_sym k "_summary").
        destruct (String.eqb "_summary" k); reflexivity.
      * rewrite <- mem_In, Em. discriminate.
Qed.

Lemma coalesce_nullish a b : nullish a = true -> coalesce a b = b.
Proof. unfold coalesce. intro H. rewrite H. reflexivity. Qed.

(** When neither a research-paper title nor a custom title is set, summarizeItem returns the name extracted by extractItemFields, followed by the URL in parentheses when that URL is truthy. *)
Theorem summarizeItem_matches_projection (item : list (string * jsval)) :
  nullish (oget (oget (lookup item "properties") "researchPaper") "title") = true ->
  nullish (oget (oget (lookup item "properties") "custom") "title") = true ->
  summarizeItem item =
    (let f := extractItemFields item in
     if truthy (f_url f)
     then JStr (jsToString (f_name f) ++ " (" ++ jsToString (f_url f) ++ ")")%string
     else f_name f).
Proof.
  intros Hr Hc. unfold summarizeItem, extractItemFields. cbv zeta.
  destruct (truthy (lookup item "properties")); simpl; [|reflexivity].
  rewrite (coalesce_nullish _ _ Hr), (coalesce_nullish _ _ Hc). reflexivity.
Qed.

End HelperProofs.

Module ListFacts.
Local Open Scope list_scope.

Lemma omap_length {A B : Type} (f : A -> option B) l l' :
  omap f l = Some l' -> length l' = length l.
Proof.
  revert l'. induction l as [|x l IH]; simpl; intros l' H.
  - inversion H; reflexivity.
  - destruct (f x); [|discriminate].
    destruct (omap f l) eqn:E; [|discriminate].
    inversion H; subst. simpl. f_equal. apply IH. reflexivity.
Qed.

Lemma omap_in {A B : Type} (f : A -> option B) l l' :
  omap f l = Some l' -> forall x, In x l -> exists y, f x = Some y /\ In y l'.
Proof.
  revert l'. induction l as [|x l IH]; simpl; intros l' H z Hz; [contradiction|].
  destruct (f x) eqn:Ef; [|discriminate].
  destruct (omap f l) eqn:E; [|discriminate].
  inversion H; subst. destruct Hz as [<-|Hz].
  - exists b. split; [exact Ef | left; reflexivity].
  - destruct (IH _ eq_refl z Hz) as [y [Hy Hin]]. exists y. split; [exact Hy | right; exact Hin].
Qed.

Lemma omap_in_rev {A B : Type} (f : A -> option B) l l' :
  omap f l = Some l' -> forall y, In y l' -> exists x, In x l /\ f x = Some y.
Proof.
  revert l'. induction l as [|x l IH]; simpl; intros l' H y Hy.
  - inversion H; subst. contradiction.
  - destruct (f x) eqn:Ef; [|discriminate].
    destruct (omap f l) eqn:E; [|discriminate].
    inversion H; subst. destruct Hy as [<-|Hy].
    + exists x. split; [left; reflexivity | exact Ef].
    + destruct (IH _ eq_refl y Hy) as [z [Hz Hf]]. exists z. split; [right; exact Hz | exact Hf].
Qed.

Lemma omap_map_fst {A B : Type} (f : A -> option (A * B)) l l' :
  (forall x y, f x = Some y -> fst y = x) ->
  omap f l = Some l' -> map fst l' = l.
Proof.
  intro Hf. revert l'. induction l as [|x l IH]; simpl; intros l' H.
  - inversion H; reflexivity.
  - destruct (f x) eqn:Ef; [|discriminate].
    destruct (omap f l) eqn:E; [|discriminate].
    inversion H; subst. simpl. rewrite (Hf _ _ Ef). f_equal. apply IH. reflexivity.
Qed.

End ListFacts.

Module ItemFilterProofs.
Import ListFacts ItemFilter Projections.
Local Open Scope list_scope.

Definition kept (it : jsval) : bool :=
  match hasSatisfiedEvaluation it with Some true => true | _ => false end.
Definition dropped (it : jsval) : bool :=
  match hasSatisfiedEvaluation it with Some false => true | _ => false end.

Lemma ofilter_some l l' :
  ofilter hasSatisfiedEvaluation l = Some l' ->
  l' = filter kept l /\
  length l = (length (filter kept l) + length (filter dropped l))%nat.
Proof.
  revert l'. induction l as [|x l IH]; intros l' H.
  - inversion H; subst. split; reflexivity.
  - cbn [ofilter] in H.
    destruct (hasSatisfiedEvaluation x) as [b|] eqn:Eh; [|discriminate].
    destruct (ofilter hasSatisfiedEvaluation l) as [l''|] eqn:E; [|discriminate].
    destruct (IH _ eq_refl) as [-> Hl].
    assert (Hk : kept x = b) by (unfold kept; rewrite Eh; destruct b; reflexivity).
    assert (Hd : dropped x = negb b) by (unfold dropped; rewrite Eh; destruct b; reflexivity).
    cbn [filter]. rewrite Hk, Hd.
    injection H as <-. destruct b; cbn [negb length]; split; try reflexivity; lia.
Qed.

(** filterAndProjectItems keeps exactly the items that pass hasSatisfiedEvaluation, those with no evaluations (missing, falsy or empty) or with at least one evaluation whose satisfied field is 'yes', projects them in input order, and reports the input count as total, the number kept as included and the number of the other items as excluded. *)
Theorem filterAndProjectItems_partition (items : list jsval) (r : FilterResult) :
  filterAndProjectItems items = Some r ->
  omap (fun it => projectItem (fieldsOf it)) (filter kept items) = Some (fr_data r) /\
  fr_total r = Z.of_nat (length items) /\
  fr_included r = Z.of_nat (length (filter kept items)) /\
  fr_excluded r = Z.of_nat (length (filter dropped items)).
Proof.
  unfold filterAndProjectItems. intro H.
  destruct (ofilter hasSatisfiedEvaluation items) as [p|] eqn:Ef; [|discriminate].
  destruct (ofilter_some _ _ Ef) as [-> Hl].
  destruct (omap _ (filter kept items)) as [data|] eqn:Eo; [|discriminate].
  inversion H; subst; clear H. simpl.
  rewrite (omap_length _ _ _ Eo).
  split; [reflexivity|]. split; [reflexivity|]. split; [reflexivity|].
  rewrite Hl. lia.
Qed.

End ItemFilterProofs.

Module ShapesProofs.
Import ListFacts Shape Shapes.
Local Open Scope list_scope.

Section Env.
Variable Number_ : string -> option Q.
Variable regex_test : cvalue -> string -> option bool.
Variable date_parse : string -> option Z.
Variable now : Z.

Lemma evaluateCondition_true_nonempty cond res :
  evaluateCondition Number_ regex_test date_parse now cond res = Some true ->
  exists r0 rs, res = Some (r0 :: rs).
Proof.
  unfold evaluateCondition.
  destruct res as [[|r0 rs]|]; [| eauto |];
    destruct (String.eqb (c_operator cond) "exists"); intro H; inversion H.
Qed.

(** The enrichment a condition reads is present with a non-empty result. *)
Definition found (enrichments : list (string * option (list string))) (cond : Condition) :=
  exists e r0 rs, find (fun e => String.eqb (fst e) (c_enrichment cond)) enrichments = Some e /\
                  snd e = Some (r0 :: rs).

Lemma cond_true_found enrichments cond :
  evaluateCondition Number_ regex_test date_parse now cond
    (match find (fun e => String.eqb (fst e) (c_enrichment cond)) enrichments with
     | Some e => snd e | None => None end) = Some true ->
  found enrichments cond.
Proof.
  intro H. apply evaluateCondition_true_nonempty in H as [r0 [rs H]].
  destruct (find _ enrichments) as [e|] eqn:Ef; [|discriminate].
  exists e, r0, rs. split; [exact Ef | exact H].
Qed.

(** A shape passes only if every condition (logic all) or some condition (logic any) reads an enrichment that is present with a non-empty result. *)
Theorem evaluateShape_pass_needs_results (shape : ShapeConfig)
    (enrichments : list (string * option (list string))) :
  evaluateShape Number_ regex_test date_parse now shape enrichments = Some true ->
  if String.eqb (sh_logic shape) "all"
  then Forall (found enrichments) (sh_conditions shape)
  else Exists (found enrichments) (sh_conditions shape).
Proof.
  unfold evaluateShape.
  destruct (omap _ (sh_conditions shape)) as [results|] eqn:Eo; [|discriminate].
  intro H; injection H as H.
  destruct (String.eqb (sh_logic shape) "all").
  - apply Forall_forall. intros cond Hc.
    destruct (omap_in _ _ _ Eo cond Hc) as [b [Hb Hin]].
    apply cond_true_found. rewrite Hb. f_equal.
    rewrite forallb_forall in H. exact (H b Hin).
  - apply existsb_exists in H as [b [Hin Hb]]. subst b.
    destruct (omap_in_rev _ _ _ Eo true Hin) as [cond [Hc Hf]].
    apply Exists_exists. exists cond. split; [exact Hc|].
    apply cond_true_found. exact Hf.
Qed.

(** A shape without conditions passes exactly when its logic is all. *)
Theorem evaluateShape_no_conditions (shape : ShapeConfig)
    (enrichments : list (string * option (list string))) :
  sh_conditions shape = [] ->
  evaluateShape Number_ regex_test date_parse now shape enrichments =
    Some (String.eqb (sh_logic shape) "all").
Proof.
  intro H. unfold evaluateShape. rewrite H. simpl.
  destruct (String.eqb (sh_logic shape) "all"); reflexivity.
Qed.

End Env.

Lemma resolveAll_desc m es rs :
  resolveAll m es = Some rs ->
  forall re, In re rs ->
    re_description re <> "" /\ exists id, mapGet m id = Some (re_description re).
Proof.
  revert rs. induction es as [|e es IH]; intros rs H re Hre.
  - simpl in H. inversion H; subst. contradiction.
  - cbn [resolveAll] in H.
    destruct (get e "enrichmentId") as [id|]; [|discriminate].
    destruct (resolveAll m es) as [tl|]; [|discriminate].
    destruct (mapGet m id) as [d|] eqn:Em.
    + destruct (Join.nonEmpty d) eqn:En; injection H as <-.
      * destruct Hre as [<-|Hre]; [|exact (IH _ eq_refl re Hre)].
        simpl. split; [|exists id; exact Em].
        unfold Join.nonEmpty in En. intro Hd. rewrite Hd in En. discriminate.
      * exact (IH _ eq_refl re Hre).
    + injection H as <-. exact (IH _ eq_refl re Hre).
Qed.

(** resolveEnrichmentDescriptions keeps the items in order; an item without truthy enrichments gets no resolved enrichment, and every resolved enrichment has a non-empty description that the description map holds for some enrichment id. *)
Theorem resolveEnrichmentDescriptions_sound (items : list jsval) (m : list (string * string))
    (res : list (jsval * list ResolvedEnrichment)) :
  resolveEnrichmentDescriptions items m = Some res ->
  map fst res = items /\
  forall it rs, In (it, rs) res ->
    (truthy (oget it "enrichments") = false -> rs = []) /\
    (forall re, In re rs ->
       re_description re <> "" /\ exists id, mapGet m id = Some (re_description re)).
Proof.
  unfold resolveEnrichmentDescriptions. intro H. split.
  - apply (omap_map_fst (resolveItem m)); [|exact H].
    intros x y. unfold resolveItem.
    destruct (get x "enrichments"); [|discriminate].
    destruct (negb (truthy j)); [intro E; injection E as <-; reflexivity|].
    destruct (iterate j); [|discriminate].
    destruct (resolveAll m l); [|discriminate]. intro E; injection E as <-; reflexivity.
  - intros it rs Hin.
    destruct (omap_in_rev _ _ _ H _ Hin) as [x [_ Hx]].
    unfold resolveItem in Hx.
    destruct (get x "enrichments") as [raw|] eqn:Eg; [|discriminate].
    assert (Hraw : oget x "enrichments" = raw).
    { destruct x; inversion Eg; reflexivity. }
    destruct (truthy raw) eqn:Et; simpl in Hx.
    + destruct (iterate raw); [|discriminate].
      destruct (resolveAll m l) as [r|] eqn:Er; [|discriminate].
      injection Hx as <- <-. split.
      * rewrite Hraw, Et. discriminate.
      * exact (resolveAll_desc _ _ _ Er).
    + injection Hx as <- <-. split; [reflexivity | intros re []].
Qed.

End ShapesProofs.

Module DedupFacts.
Import Str AssocFacts.
Local Open Scope list_scope.

Lemma dedup_acc_In seen xs x :
  In x (dedup_acc seen xs) <-> In x xs /\ ~ In x seen.
Proof.
  revert seen. induction xs as [|y xs IH]; intro seen; cbn [dedup_acc].
  - simpl. tauto.
  - destruct (mem y seen) eqn:Em.
    + rewrite IH. apply mem_In in Em. simpl. split.
      * intros [H1 H2]. auto.
      * intros [[<-|H1] H2]; [contradiction|auto].
    + simpl. rewrite IH. simpl. split.
      * intros [<-|[H1 H2]]; [split; [auto|] | split; [auto|tauto]].
        intro Hin. apply mem_In in Hin. congruence.
      * intros [[<-|H1] H2]; [left; reflexivity|].
        destruct (String.eqb y x) eqn:E.
        -- apply String.eqb_eq in E. left; exact E.
        -- right. split; [exact H1|]. intros [E'|E']; [subst; rewrite String.eqb_refl in E; discriminate | auto].
Qed.

Lemma distinct_dedup_acc seen xs : distinct (dedup_acc seen xs) = true.
Proof.
  revert seen. induction xs as [|y xs IH]; intro seen; cbn [dedup_acc]; [reflexivity|].
  destruct (mem y seen); [apply IH|].
  cbn [distinct]. rewrite IH, andb_true_r.
  destruct (mem y (dedup_acc (y :: seen) xs)) eqn:E; [|reflexivity].
  apply mem_In, dedup_acc_In in E as [_ E]. exfalso. apply E. left. reflexivity.
Qed.

Lemma dedup_acc_ext s1 s2 xs :
  (forall x, mem x s1 = mem x s2) -> dedup_acc s1 xs = dedup_acc s2 xs.
Proof.
  revert s1 s2. induction xs as [|y xs IH]; intros s1 s2 H; cbn [dedup_acc]; [reflexivity|].
  rewrite H. destruct (mem y s2); [apply IH; exact H|].
  f_equal. apply IH. intro x. unfold mem. simpl. fold (mem x s1) (mem x s2). rewrite H. reflexivity.
Qed.

Lemma keys_fold_dedup {A V : Type} (key : A -> string) (val : A -> V) xs
    (acc : list (string * V)) :
  map fst (fold_left (fun acc x => Join.obj_set acc (key x) (val x)) xs acc) =
  map fst acc ++ dedup_acc (map fst acc) (map key xs).
Proof.
  revert acc. induction xs as [|x xs IH]; intro acc; cbn [fold_left map dedup_acc].
  - rewrite app_nil_r. reflexivity.
  - rewrite IH, keys_obj_set. destruct (mem (key x) (map fst acc)) eqn:E; [reflexivity|].
    rewrite <- app_assoc. simpl. f_equal. f_equal. apply dedup_acc_ext.
    intro y. unfold mem. rewrite existsb_app. simpl. rewrite orb_false_r, orb_comm. reflexivity.
Qed.

Lemma dedup_acc_distinct seen xs :
  distinct xs = true -> (forall x, In x xs -> mem x seen = false) -> dedup_acc seen xs = xs.
Proof.
  revert seen. induction xs as [|y xs IH]; intros seen Hd Hs; cbn [dedup_acc]; [reflexivity|].
  cbn [distinct] in Hd. apply andb_true_iff in Hd as [Hn Hd]. apply negb_true_iff in Hn.
  rewrite (Hs y (or_introl eq_refl)). f_equal. apply IH; [exact Hd|].
  intros x Hx. unfold mem. simpl. fold (mem x seen).
  rewrite (Hs x (or_intror Hx)), orb_false_r.
  destruct (String.eqb x y) eqn:E; [|reflexivity].
  apply String.eqb_eq in E; subst. apply mem_In in Hx. congruence.
Qed.

Lemma setMinus_In a b k : In k (Delta.setMinus a b) <-> In k a /\ ~ In k b.
Proof.
  unfold Delta.setMinus, dedup. rewrite filter_In, dedup_acc_In.
  split.
  - intros [[H _] Hm]. split; [exact H|]. intro Hb. apply mem_In in Hb. rewrite Hb in Hm. discriminate.
  - intros [H Hb]. split; [split; [exact H | intros []]|].
    destruct (mem k b) eqn:E; [|reflexivity]. apply mem_In in E. contradiction.
Qed.

Lemma setMinus_NoDup a b : NoDup (Delta.setMinus a b).
Proof.
  unfold Delta.setMinus, dedup. apply NoDup_filter, distinct_NoDup, distinct_dedup_acc.
Qed.

Lemma setMinus_self a : Delta.setMinus a a = [].
Proof.
  destruct (Delta.setMinus a a) as [|k l] eqn:E; [reflexivity|].
  assert (H : In k (Delta.setMinus a a)) by (rewrite E; left; reflexivity).
  apply setMinus_In in H as [H1 H2]. contradiction.
Qed.

End DedupFacts.

Module DeltaProofs.
Import Str Signal Join AssocFacts DedupFacts Delta.
Local Open Scope list_scope.

Lemma find_distinct_in {V : Type} (l : list (string * V)) x :
  distinct (map fst l) = true -> In x l ->
  find (fun kv => String.eqb (fst kv) (fst x)) l = Some x.
Proof.
  induction l as [|y l IH]; intros Hd Hin; [contradiction|].
  cbn [map distinct] in Hd. apply andb_true_iff in Hd as [Hn Hd].
  cbn [find]. destruct Hin as [<-|Hin]; [rewrite String.eqb_refl; reflexivity|].
  destruct (String.eqb (fst y) (fst x)) eqn:E; [|apply IH; assumption].
  apply String.eqb_eq in E. apply negb_true_iff in Hn.
  exfalso. assert (Hm : mem (fst y) (map fst l) = true).
  { apply mem_In. rewrite E. apply in_map. exact Hin. }
  congruence.
Qed.

Lemma Forall_obj_set {V : Type} (P : V -> Prop) (m : list (string * V)) k v :
  Forall (fun kv => P (snd kv)) m -> P v -> Forall (fun kv => P (snd kv)) (obj_set m k v).
Proof.
  induction m as [|[k0 v0] m IH]; intros Hm Hv; cbn [obj_set].
  - constructor; [exact Hv | constructor].
  - inversion Hm; subst. destruct (String.eqb k k0); constructor; auto.
Qed.

Lemma Forall_fold_obj_set {A V : Type} (P : V -> Prop) (key : A -> string) (val : A -> V) xs acc :
  Forall (fun kv => P (snd kv)) acc -> (forall x, In x xs -> P (val x)) ->
  Forall (fun kv => P (snd kv))
    (fold_left (fun acc x => obj_set acc (key x) (val x)) xs acc).
Proof.
  revert acc. induction xs as [|x xs IH]; intros acc Hacc Hx; [exact Hacc|].
  cbn [fold_left]. apply IH.
  - apply Forall_obj_set; [exact Hacc | apply Hx; left; reflexivity].
  - intros y Hy. apply Hx. right. exact Hy.
Qed.

Section Clock.
Variable getTime : string -> option Z.

(** Comparing a snapshot with itself (distinct lens ids) reports zero new shaped items for each lens, no new or lost joins or entities, no change in the signal, and an elapsed time of 0m (NaNm when the timestamp does not parse). *)
Theorem computeDelta_self (s : SnapshotData) :
  distinct (map fst (sd_lenses s)) = true ->
  let d := computeDelta getTime s s in
  map fst (dl_newShapedItems d) = map fst (sd_lenses s) /\
  Forall (fun kv => snd kv = 0%Z) (dl_newShapedItems d) /\
  dl_newJoins d = [] /\ dl_lostJoins d = [] /\
  dl_changed d = false /\
  dl_newEntities d = [] /\ dl_lostEntities d = [] /\
  dl_timeSinceLastEval d =
    match getTime (sd_evaluatedAt s) with Some _ => "0m" | None => "NaNm" end.
Proof.
  intros Hd d. subst d. unfold computeDelta. cbn [dl_newShapedItems dl_newJoins dl_lostJoins
    dl_changed dl_newEntities dl_lostEntities dl_timeSinceLastEval].
  rewrite !setMinus_self, Bool.eqb_reflx.
  split; [|split; [|split; [reflexivity|split; [reflexivity|split; [reflexivity|split; [reflexivity|split; [reflexivity|]]]]]]].
  - rewrite keys_fold_dedup. apply dedup_acc_distinct; [exact Hd | reflexivity].
  - apply (Forall_fold_obj_set (fun v => v = 0%Z) fst
      (fun kv => Z.max 0 (ls_shapedCount (snd kv) - prevShapedCount s (fst kv))));
      [constructor|].
    intros x Hx. unfold prevShapedCount. rewrite (find_distinct_in _ _ Hd Hx). lia.
  - destruct (getTime (sd_evaluatedAt s)); [|reflexivity].
    rewrite Z.sub_diag. reflexivity.
Qed.

(** The new and lost joins and entities reported by computeDelta are duplicate-free and are exactly the set differences of the current and previous entity keys and signal entities. *)
Theorem computeDelta_sets (current previous : SnapshotData) :
  let d := computeDelta getTime current previous in
  let ck := map entityKey (jr_entities (sd_join current)) in
  let pk := map entityKey (jr_entities (sd_join previous)) in
  let ce := sr_entities (sd_signal current) in
  let pe := sr_entities (sd_signal previous) in
  NoDup (dl_newJoins d) /\ NoDup (dl_lostJoins d) /\
  NoDup (dl_newEntities d) /\ NoDup (dl_lostEntities d) /\
  forall k,
    (In k (dl_newJoins d) <-> In k ck /\ ~ In k pk) /\
    (In k (dl_lostJoins d) <-> In k pk /\ ~ In k ck) /\
    (In k (dl_newEntities d) <-> In k ce /\ ~ In k pe) /\
    (In k (dl_lostEntities d) <-> In k pe /\ ~ In k ce).
Proof.
  cbv zeta. unfold computeDelta. cbn [dl_newJoins dl_lostJoins dl_newEntities dl_lostEntities].
  split; [apply setMinus_NoDup|]. split; [apply setMinus_NoDup|].
  split; [apply setMinus_NoDup|]. split; [apply setMinus_NoDup|].
  intro k. split; [apply setMinus_In|]. split; [apply setMinus_In|].
  split; apply setMinus_In.
Qed.

(** When the current lens ids are plain keys (no array index, no __proto__), computeDelta between two snapshots built by buildSnapshot lists each current lens once, in first-occurrence order, and its new shaped item count is the growth of its last reported count over the previous run's last count for that lens (0 when absent), never negative. *)
Theorem buildSnapshot_computeDelta_growth (now1 now0 : string)
    (lrs1 lrs0 : list LensResult) (j1 j0 : JoinResult) (s1 s0 : SignalResult)
    (w1 w0 : list (string * string)) (l : string) :
  forallb (fun lr => plainKey (lr_lensId lr)) lrs1 = true ->
  let d := computeDelta getTime (buildSnapshot now1 lrs1 j1 s1 w1)
                                (buildSnapshot now0 lrs0 j0 s0 w0) in
  map fst (dl_newShapedItems d) = dedup (map lr_lensId lrs1) /\
  assoc (dl_newShapedItems d) l =
    match find (fun lr => String.eqb (lr_lensId lr) l) (rev lrs1) with
    | Some lr =>
        Some (Z.max 0 (Z.of_nat (length (lr_shapedItems lr)) -
                       match find (fun lr0 => String.eqb (lr_lensId lr0) l) (rev lrs0) with
                       | Some lr0 => Z.of_nat (length (lr_shapedItems lr0))
                       | None => 0
                       end))
    | None => None
    end.
Proof.
  intros _. cbv zeta. unfold computeDelta, buildSnapshot. cbn [dl_newShapedItems sd_lenses].
  remember (fold_left _ lrs1 []) as L1 eqn:EL1.
  remember (fold_left _ lrs0 []) as L0 eqn:EL0.
  assert (HK1 : map fst L1 = dedup (map lr_lensId lrs1))
    by (rewrite EL1, keys_fold_dedup; reflexivity).
  assert (HD1 : distinct (map fst L1) = true) by (rewrite HK1; apply distinct_dedup_acc).
  assert (H1 : option_map ls_shapedCount (assoc L1 l) =
               match find (fun lr => String.eqb (lr_lensId lr) l) (rev lrs1) with
               | Some lr => Some (Z.of_nat (length (lr_shapedItems lr))) | None => None end).
  { rewrite EL1, (assoc_fold_obj_set lr_lensId). destruct (find _ (rev lrs1)); reflexivity. }
  assert (H0 : option_map ls_shapedCount (assoc L0 l) =
               match find (fun lr => String.eqb (lr_lensId lr) l) (rev lrs0) with
               | Some lr => Some (Z.of_nat (length (lr_shapedItems lr))) | None => None end).
  { rewrite EL0, (assoc_fold_obj_set lr_lensId). destruct (find _ (rev lrs0)); reflexivity. }
  clear EL1 EL0.
  split.
  - rewrite keys_fold_dedup. cbn [map app]. rewrite HK1.
    apply dedup_acc_distinct; [apply distinct_dedup_acc | reflexivity].
  - rewrite (assoc_fold_obj_set fst). rewrite find_rev_distinct by exact HD1.
    unfold prevShapedCount. cbn [sd_lenses].
    unfold assoc in H1, H0.
    destruct (find _ L1) as [[k v]|] eqn:E.
    + apply find_some in E as [_ Ek]. apply String.eqb_eq in Ek. cbn [fst] in Ek. subst k.
      destruct (find _ (rev lrs1)) as [lr|]; cbn in H1; [|discriminate].
      injection H1 as H1. cbn [fst snd]. rewrite H1.
      destruct (find _ L0) as [[k0 v0]|]; destruct (find _ (rev lrs0)) as [lr0|];
        cbn in H0; try discriminate; [injection H0 as H0; cbn [snd]; rewrite H0|]; reflexivity.
    + destruct (find _ (rev lrs1)); cbn in H1; [discriminate|reflexivity].
Qed.

End Clock.
End DeltaProofs.

Module FormatDurationProofs.
Import Str Delta.
Local Open Scope Z_scope.

(** For a non-negative duration of d days, h hours, m minutes and some extra milliseconds under a minute, formatDuration lists the non-zero day and hour parts and the minutes, the minutes also when days and hours are both zero, separated by spaces. *)
Theorem formatDuration_components (d h m sec : Z) :
  0 <= d -> 0 <= h < 24 -> 0 <= m < 60 -> 0 <= sec < 60000 ->
  formatDuration (Some (((d * 24 + h) * 60 + m) * 60000 + sec)) =
  join " " (app (if 0 <? d then [String.append (Runtime.Z_to_string d) "d"] else [])
           (app (if 0 <? h then [String.append (Runtime.Z_to_string h) "h"] else [])
                (if (0 <? m) || ((d =? 0) && (h =? 0))
                 then [String.append (Runtime.Z_to_string m) "m"] else []))).
Proof.
  intros Hd Hh Hm Hs. unfold formatDuration.
  assert (Htm : (((d * 24 + h) * 60 + m) * 60000 + sec) / 60000 = (d * 24 + h) * 60 + m).
  { rewrite Z.div_add_l by lia. rewrite (Z.div_small sec) by lia. lia. }
  rewrite Htm.
  assert (Hdays : ((d * 24 + h) * 60 + m) / 1440 = d).
  { replace ((d * 24 + h) * 60 + m) with (d * 1440 + (h * 60 + m)) by lia.
    rewrite Z.div_add_l by lia. rewrite (Z.div_small (h * 60 + m)) by lia. lia. }
  assert (Hr : Z.rem ((d * 24 + h) * 60 + m) 1440 = h * 60 + m).
  { rewrite Z.rem_mod_nonneg by lia.
    replace ((d * 24 + h) * 60 + m) with (h * 60 + m + d * 1440) by lia.
    rewrite Z.mod_add by lia. apply Z.mod_small. lia. }
  assert (Hhours : Z.rem ((d * 24 + h) * 60 + m) 1440 / 60 = h) by (rewrite Hr, Z.div_add_l by lia; rewrite Z.div_small by lia; lia).
  assert (Hmin : Z.rem ((d * 24 + h) * 60 + m) 60 = m)
    by (rewrite Z.rem_mod_nonneg by lia;
        replace ((d * 24 + h) * 60 + m) with (m + (d * 24 + h) * 60) by lia;
        rewrite Z.mod_add by lia; apply Z.mod_small; lia).
  rewrite Hdays, Hhours, Hmin.
  destruct (Z.ltb_spec 0 d); destruct (Z.ltb_spec 0 h);
    [ replace (d =? 0) with false by (symmetry; apply Z.eqb_neq; lia)
    | replace (d =? 0) with false by (symmetry; apply Z.eqb_neq; lia)
    | replace (h =? 0) with false by (symmetry; apply Z.eqb_neq; lia)
    | replace (d =? 0) with true by (symmetry; apply Z.eqb_eq; lia);
      replace (h =? 0) with true by (symmetry; apply Z.eqb_eq; lia) ];
    rewrite ?andb_false_l, ?andb_true_l, ?orb_false_r, ?orb_true_r;
    cbn [app length Nat.eqb orb]; try reflexivity.
  all: destruct (0 <? m); cbn [orb]; rewrite ?andb_false_r; reflexivity.
Qed.

(** A negative duration is rendered by formatDuration with no day or hour part: only the minutes, the remainder (sign of the dividend, as JS %) of the floored total minutes by 60. *)
Theorem formatDuration_negative (ms : Z) :
  ms < 0 ->
  formatDuration (Some ms) = String.append (Runtime.Z_to_string (Z.rem (ms / 60000) 60)) "m".
Proof.
  intro H. unfold formatDuration.
  assert (Ht : ms / 60000 < 0) by (apply Z.div_lt_upper_bound; lia).
  assert (Hd : (0 <? ms / 60000 / 1440) = false).
  { apply Z.ltb_ge. apply Z.div_le_upper_bound; lia. }
  assert (Hh : (0 <? Z.rem (ms / 60000) 1440 / 60) = false).
  { apply Z.ltb_ge. apply Z.div_le_upper_bound; [lia|].
    assert (Z.rem (ms / 60000) 1440 <= 0) by (apply Z.rem_nonpos; lia). lia. }
  rewrite Hd, Hh. cbn [app length Nat.eqb]. rewrite orb_true_r. reflexivity.
Qed.

End FormatDurationProofs.

Module JoinInvariantProofs.
Import Str Signal Join AssocFacts DedupFacts.
Local Open Scope list_scope.

Lemma In_obj_set {V : Type} (m : list (string * V)) k v kv :
  In kv (obj_set m k v) -> In kv m \/ kv = (k, v).
Proof.
  induction m as [|[k0 v0] m IH]; cbn [obj_set]; intro H.
  - destruct H as [<-|[]]. right. reflexivity.
  - destruct (String.eqb k k0).
    + destruct H as [<-|H]; [right; reflexivity | left; right; exact H].
    + destruct H as [<-|H]; [left; left; reflexivity|].
      destruct (IH H) as [H'|H']; [left; right; exact H' | right; exact H'].
Qed.

Lemma set_add_In x s y : In y (set_add x s) <-> In y s \/ y = x.
Proof.
  unfold set_add. destruct (mem x s) eqn:E.
  - apply mem_In in E. split; [tauto|]. intros [H|<-]; assumption.
  - rewrite in_app_iff. simpl. split; intros [H|H]; auto; destruct H as [H|[]]; auto.
Qed.

Lemma set_add_NoDup x s : NoDup s -> NoDup (set_add x s).
Proof.
  unfold set_add. intro H. destruct (mem x s) eqn:E; [exact H|].
  apply NoDup_app; [exact H | repeat constructor; intros [] | ].
  intros y Hy [<-|[]]. apply mem_In in Hy. congruence.
Qed.

Section Engine.
Variable diceCoefficient : string -> string -> Q.
Variable getTime : string -> option Z.

Section Inv.
Variable P : Entry -> Prop.

Lemma matchEntry_pres thr lensId si m m' :
  (forall e, P e -> P (foldInto lensId si e)) ->
  (forall kv, In kv m -> P (snd kv)) ->
  matchEntry diceCoefficient thr lensId si m = Some m' ->
  forall kv, In kv m' -> P (snd kv).
Proof.
  intros Hf. revert m'. induction m as [|[k e] m IH]; intros m' Hm H; cbn [matchEntry] in H;
    [discriminate|].
  destruct (urlMatch si e || nameMatch diceCoefficient thr si e).
  - injection H as <-. intros kv [<-|Hin].
    + apply Hf. exact (Hm (k, e) (or_introl eq_refl)).
    + apply Hm. right. exact Hin.
  - destruct (matchEntry diceCoefficient thr lensId si m) as [rest'|] eqn:E; [|discriminate].
    injection H as <-. intros kv [<-|Hin].
    + exact (Hm (k, e) (or_introl eq_refl)).
    + apply (IH rest'); [intros kv' H'; apply Hm; right; exact H' | reflexivity | exact Hin].
Qed.

Lemma processItem_pres jc lensId m si :
  (forall e, P e -> P (foldInto lensId si e)) -> P (newEntry lensId si) ->
  (forall kv, In kv m -> P (snd kv)) ->
  forall kv, In kv (processItem diceCoefficient jc lensId m si) -> P (snd kv).
Proof.
  intros Hf Hn Hm. unfold processItem.
  destruct (matchEntry diceCoefficient (nameThreshold jc) lensId si m) as [m'|] eqn:E.
  - exact (matchEntry_pres _ _ _ _ _ Hf Hm E).
  - intros kv Hin. apply In_obj_set in Hin as [Hin| ->]; [exact (Hm kv Hin) | exact Hn].
Qed.

End Inv.

(** A lens id that names a lens result with at least one shaped item. *)
Definition evidenced (lensResults : list LensResult) (l : string) : Prop :=
  exists lr, In lr lensResults /\ lr_lensId lr = l /\ lr_shapedItems lr <> [].

Definition goodEntry (lensResults : list LensResult) (e : Entry) : Prop :=
  NoDup (en_lenses e) /\ forall l, In l (en_lenses e) -> evidenced lensResults l.

Lemma buildEntityMap_good jc lensResults :
  forall kv, In kv (buildEntityMap diceCoefficient jc lensResults) ->
  goodEntry lensResults (snd kv).
Proof.
  unfold buildEntityMap.
  assert (H : forall lrs (m : list (string * Entry)),
             incl lrs lensResults ->
             (forall kv, In kv m -> goodEntry lensResults (snd kv)) ->
             forall kv, In kv (fold_left (fun m lr =>
                                 fold_left (processItem diceCoefficient jc (lr_lensId lr))
                                           (lr_shapedItems lr) m) lrs m) ->
                        goodEntry lensResults (snd kv)).
  { induction lrs as [|lr lrs IH]; intros m Hincl Hm; [exact Hm|].
    cbn [fold_left]. apply IH; [intros x Hx; apply Hincl; right; exact Hx|].
    assert (Hlr : In lr lensResults) by (apply Hincl; left; reflexivity).
    assert (Hitems : forall sis (m0 : list (string * Entry)), incl sis (lr_shapedItems lr) ->
              (forall kv, In kv m0 -> goodEntry lensResults (snd kv)) ->
              forall kv, In kv (fold_left (processItem diceCoefficient jc (lr_lensId lr)) sis m0) ->
                         goodEntry lensResults (snd kv)).
    { induction sis as [|si sis IHs]; intros m0 Hs Hm0; [exact Hm0|].
      cbn [fold_left]. apply IHs; [intros x Hx; apply Hs; right; exact Hx|].
      assert (Hev : evidenced lensResults (lr_lensId lr)).
      { exists lr. split; [exact Hlr|]. split; [reflexivity|].
        intro E. specialize (Hs si (or_introl eq_refl)). rewrite E in Hs. exact Hs. }
      apply processItem_pres; [| |exact Hm0].
      - intros e [Hnd Hl]. split; [apply set_add_NoDup; exact Hnd|].
        intros l Hin. apply set_add_In in Hin as [Hin| ->]; [exact (Hl l Hin) | exact Hev].
      - split; [repeat constructor; intros []|].
        intros l [<-|[]]. exact Hev. }
    apply Hitems; [intros x Hx; exact Hx | exact Hm]. }
  apply H; [intros x Hx; exact Hx | intros kv []].
Qed.

Lemma joinLensResults_entity_good (lensResults : list LensResult) (jc : JoinConfig) :
  jc_by jc = ByEntity \/ jc_by jc = ByEntityTemporal ->
  let r := joinLensResults diceCoefficient getTime lensResults jc in
  NoDup (jr_lensesWithEvidence r) /\
  (forall l, In l (jr_lensesWithEvidence r) -> evidenced lensResults l) /\
  Forall (fun e => NoDup (je_presentInLenses e) /\
                   je_lensCount e = Z.of_nat (length (je_presentInLenses e)) /\
                   (minOverlap jc <= je_lensCount e)%Z /\
                   forall l, In l (je_presentInLenses e) -> evidenced lensResults l)
         (jr_entities r).
Proof.
  intro Hby. cbv zeta. unfold joinLensResults.
  assert (Hgen : forall ents,
            (forall e, In e ents -> exists kv, In kv (buildEntityMap diceCoefficient jc lensResults) /\
                                               e = toJoined (snd kv)) ->
            let es := filter (fun e => Z.leb (minOverlap jc) (je_lensCount e)) ents in
            let r := mkJoinResult (joinBy_name (jc_by jc)) es
                       (dedup (flat_map je_presentInLenses es)) in
            NoDup (jr_lensesWithEvidence r) /\
            (forall l, In l (jr_lensesWithEvidence r) -> evidenced lensResults l) /\
            Forall (fun e => NoDup (je_presentInLenses e) /\
                             je_lensCount e = Z.of_nat (length (je_presentInLenses e)) /\
                             (minOverlap jc <= je_lensCount e)%Z /\
                             forall l, In l (je_presentInLenses e) -> evidenced lensResults l)
                   (jr_entities r)).
  { intros ents Hents es r. subst es r. cbn [jr_lensesWithEvidence jr_entities].
    assert (Hall : forall e, In e (filter (fun e => Z.leb (minOverlap jc) (je_lensCount e)) ents) ->
              NoDup (je_presentInLenses e) /\
              je_lensCount e = Z.of_nat (length (je_presentInLenses e)) /\
              (minOverlap jc <= je_lensCount e)%Z /\
              forall l, In l (je_presentInLenses e) -> evidenced lensResults l).
    { intros e He. apply filter_In in He as [He Hmin]. apply Z.leb_le in Hmin.
      destruct (Hents e He) as [kv [Hkv ->]].
      destruct (buildEntityMap_good _ _ kv Hkv) as [Hnd Hl].
      split; [exact Hnd|]. split; [reflexivity|]. split; [exact Hmin|exact Hl]. }
    split; [apply distinct_NoDup, distinct_dedup_acc|]. split.
    - intros l Hl. apply dedup_acc_In in Hl as [Hl _].
      apply in_flat_map in Hl as [e [He Hl]]. exact (proj2 (proj2 (proj2 (Hall e He))) l Hl).
    - apply Forall_forall. exact Hall. }
  assert (Hbase : forall e, In e (map toJoined (map snd (buildEntityMap diceCoefficient jc lensResults))) ->
            exists kv, In kv (buildEntityMap diceCoefficient jc lensResults) /\ e = toJoined (snd kv)).
  { intros e He. rewrite map_map in He. apply in_map_iff in He as [kv [<- Hkv]].
    exists kv. split; [exact Hkv | reflexivity]. }
  destruct Hby as [Hby|Hby]; rewrite Hby; rewrite Hby in Hgen.
  - apply Hgen. exact Hbase.
  - destruct (jc_temporalDays jc) as [d|]; [destruct (Qeq_bool d 0)|]; apply Hgen; try exact Hbase.
    intros e He. apply filter_In in He as [He _]. exact (Hbase e He).
Qed.

(** In the entity join modes, the lenses with evidence are duplicate-free and each has a non-empty shaped-item list; each reported entity lists distinct lenses, its lens count is their number, at least the minimum overlap, and each of those lenses has shaped items. *)
Theorem joinLensResults_entity_invariants (lensResults : list LensResult) (jc : JoinConfig) :
  jc_by jc = ByEntity \/ jc_by jc = ByEntityTemporal ->
  let r := joinLensResults diceCoefficient getTime lensResults jc in
  NoDup (jr_lensesWithEvidence r) /\
  (forall l, In l (jr_lensesWithEvidence r) -> evidenced lensResults l) /\
  Forall (fun e => NoDup (je_presentInLenses e) /\
                   je_lensCount e = Z.of_nat (length (je_presentInLenses e)) /\
                   (minOverlap jc <= je_lensCount e)%Z /\
                   forall l, In l (je_presentInLenses e) -> evidenced lensResults l)
         (jr_entities r).
Proof. apply joinLensResults_entity_good. Qed.

Lemma nonempty_lenses_evidenced lensResults l :
  In l (map lr_lensId (filter (fun lr => negb (Nat.eqb (length (lr_shapedItems lr)) 0))
                              lensResults)) ->
  evidenced lensResults l.
Proof.
  intro H. apply in_map_iff in H as [lr [<- H]]. apply filter_In in H as [H Hn].
  exists lr. split; [exact H|]. split; [reflexivity|].
  intro E. rewrite E in Hn. discriminate.
Qed.

(** In every join mode, a lens reported with evidence has a lens result with a non-empty list of shaped items. *)
Theorem joinLensResults_evidence_sound (lensResults : list LensResult) (jc : JoinConfig) (l : string) :
  In l (jr_lensesWithEvidence (joinLensResults diceCoefficient getTime lensResults jc)) ->
  evidenced lensResults l.
Proof.
  destruct (jc_by jc) eqn:Eby.
  - intro H. apply (joinLensResults_entity_good lensResults jc (or_introl Eby)). exact H.
  - (* temporal *)
    unfold joinLensResults. rewrite Eby. unfold joinByTemporal. cbv zeta.
    cbn [jr_lensesWithEvidence].
    set (w := windowOf (match jc_temporalDays jc with Some d => d | None => 7 end)).
    remember (fold_left _ lensResults []) as lt eqn:Elt.
    assert (Hlt : forall kv, In kv lt -> evidenced lensResults (fst kv)).
    { subst lt.
      assert (G : forall lrs (acc : list (string * list (option Z))), incl lrs lensResults ->
                (forall kv, In kv acc -> evidenced lensResults (fst kv)) ->
                forall kv, In kv (fold_left (fun acc lr =>
                   if Nat.eqb (length (map (fun si => getTime (si_createdAt si)) (lr_shapedItems lr))) 0
                   then acc
                   else obj_set acc (lr_lensId lr) (map (fun si => getTime (si_createdAt si)) (lr_shapedItems lr)))
                   lrs acc) -> evidenced lensResults (fst kv)).
      { induction lrs as [|lr lrs IH]; intros acc Hi Ha; [exact Ha|].
        cbn [fold_left]. apply IH; [intros x Hx; apply Hi; right; exact Hx|].
        destruct (Nat.eqb _ 0) eqn:E; [exact Ha|].
        intros kv Hkv. apply In_obj_set in Hkv as [Hkv| ->]; [exact (Ha kv Hkv)|].
        exists lr. split; [apply Hi; left; reflexivity|]. split; [reflexivity|].
        intro E'. rewrite E' in E. discriminate. }
      apply G; [intros x Hx; exact Hx | intros kv []]. }
    clear Elt.
    assert (Hq : forall q, (forall x, In x q -> evidenced lensResults x) ->
              (forall kv, In kv lt -> evidenced lensResults (fst kv)) ->
              In l ((fix pairs (ls : list (string * list (option Z))) (q : list string) : list string :=
                       match ls with
                       | [] => q
                       | (la, timesA) :: rest =>
                           pairs rest
                             (fold_left (fun q lb =>
                                if existsb (fun ta => existsb (fun tb =>
                                     match ta, tb with
                                     | Some a, Some b => withinMs (Z.abs (a - b)) w
                                     | _, _ => false
                                     end) (snd lb)) timesA
                                then set_add (fst lb) (set_add la q) else q) rest q)
                       end) lt q) -> evidenced lensResults l).
    { clear Hlt. induction lt as [|[la ta] lt IH]; intros q Hq Hl; [exact (Hq l)|].
      apply IH; [|intros kv Hkv; apply Hl; right; exact Hkv].
      assert (Hla : evidenced lensResults la) by exact (Hl (la, ta) (or_introl eq_refl)).
      assert (G : forall rest q0, incl rest lt -> (forall x, In x q0 -> evidenced lensResults x) ->
                forall x, In x (fold_left (fun q lb =>
                                if existsb (fun ta0 => existsb (fun tb =>
                                     match ta0, tb with
                                     | Some a, Some b => withinMs (Z.abs (a - b)) w
                                     | _, _ => false
                                     end) (snd lb)) ta
                                then set_add (fst lb) (set_add la q) else q) rest q0) ->
                           evidenced lensResults x).
      { induction rest as [|lb rest IHr]; intros q0 Hi Hq0; [exact Hq0|].
        cbn [fold_left]. apply IHr; [intros y Hy; apply Hi; right; exact Hy|].
        destruct (existsb _ ta); [|exact Hq0].
        intros x Hx. apply set_add_In in Hx as [Hx| ->].
        - apply set_add_In in Hx as [Hx| ->]; [exact (Hq0 x Hx) | exact Hla].
        - apply Hl. right. apply Hi. left. reflexivity. }
      apply G; [intros y Hy; exact Hy | exact Hq]. }
    apply Hq; [intros x [] | exact Hlt].
  - intro H. apply (joinLensResults_entity_good lensResults jc (or_intror Eby)). exact H.
  - (* cooccurrence *)
    unfold joinLensResults in *. rewrite Eby in *. unfold joinByCooccurrence in *.
    destruct (jc_temporalDays jc) as [d|]; [|apply nonempty_lenses_evidenced].
    destruct (Qeq_bool d 0); [apply nonempty_lenses_evidenced|].
    intro H.
    assert (Hall : forall p, In p (flat_map (fun lr => map (fun si => (lr_lensId lr, getTime (si_createdAt si)))
                                        (lr_shapedItems lr)) lensResults) ->
                   evidenced lensResults (fst p)).
    { intros p Hp. apply in_flat_map in Hp as [lr [Hlr Hp]].
      apply in_map_iff in Hp as [si [<- Hsi]].
      exists lr. split; [exact Hlr|]. split; [reflexivity|].
      intro E. rewrite E in Hsi. exact Hsi. }
    destruct (flat_map _ lensResults) as [|p0 ps] eqn:Eall; [destruct H|].
    destruct (existsb _ _); [destruct H|].
    cbn [jr_lensesWithEvidence] in H.
    apply dedup_acc_In in H as [H _]. apply in_map_iff in H as [p [<- Hp]].
    apply filter_In in Hp as [Hp _]. exact (Hall p Hp).
Qed.

End Engine.
End JoinInvariantProofs.

Module SignalExtraProofs.
Import Str Signal AssocFacts DedupFacts.
Local Open Scope list_scope.

Lemma validateCombos_err ids combos :
  (exists m st, validateCombos ids combos = WErr m st) <->
  exists combo id, In combo combos /\ In id combo /\ ~ In id ids.
Proof.
  induction combos as [|c cs IH]; cbn [validateCombos].
  - split; [intros [m [st H]]; discriminate | intros [c [id [[] _]]]].
  - destruct (find (fun id => negb (mem id ids)) c) as [id|] eqn:E.
    + split; [intros _|eauto].
      apply find_some in E as [Hin Hn]. exists c, id. split; [left; reflexivity|].
      split; [exact Hin|]. intro H. apply mem_In in H. rewrite H in Hn. discriminate.
    + rewrite IH. split.
      * intros [c' [id [H1 H2]]]. exists c', id. split; [right; exact H1 | exact H2].
      * intros [c' [id [[<-|H1] [H2 H3]]]].
        -- exfalso. assert (Hf := find_none _ _ E id H2). cbn beta in Hf.
           destruct (mem id ids) eqn:Em; [apply mem_In in Em; contradiction | discriminate].
        -- exists c', id. auto.
Qed.

Lemma validateCombos_step ids combos m st :
  validateCombos ids combos = WErr m st -> st = "validate".
Proof.
  induction combos as [|c cs IH]; cbn [validateCombos]; [discriminate|].
  destruct (find _ c); [intro H; injection H as _ <-; reflexivity | exact IH].
Qed.

(** evaluateSignal fails, always at the validate step, exactly when the rule is a combination rule whose sufficient list is missing or empty or names a lens id not among the known lens ids. *)
Theorem evaluateSignal_fails_iff (jr : JoinResult) (cfg : SignalConfig) (allLensIds : list string) :
  ((exists m st, evaluateSignal jr cfg allLensIds = WErr m st) <->
   sc_type cfg = RCombination /\
   (sufficient_or_nil cfg = [] \/
    exists combo id, In combo (sufficient_or_nil cfg) /\ In id combo /\ ~ In id allLensIds)) /\
  (forall m st, evaluateSignal jr cfg allLensIds = WErr m st -> st = "validate").
Proof.
  unfold evaluateSignal, validateSignal, sufficient_or_nil.
  split.
  - destruct (sc_type cfg).
    + split; [intros [m [st H]]; destruct (Nat.eqb _ 0); discriminate | intros [H _]; discriminate].
    + split; [intros [m [st H]]; destruct (Nat.eqb _ 0); discriminate | intros [H _]; discriminate].
    + split; [intros [m [st H]]; destruct (Nat.eqb _ 0); discriminate | intros [H _]; discriminate].
    + destruct (sc_sufficient cfg) as [[|c cs]|].
      * split; [intros _; split; [reflexivity | left; reflexivity] | eauto].
      * rewrite <- validateCombos_err. split.
        -- intros [m [st H]]. split; [reflexivity|]. right.
           destruct (validateCombos allLensIds (c :: cs)); [|eauto].
           destruct (Nat.eqb _ 0); discriminate.
        -- intros [_ [H|[m [st H]]]]; [discriminate|]. rewrite H. eauto.
      * split; [intros _; split; [reflexivity | left; reflexivity] | eauto].
  - intros m st. destruct (sc_type cfg);
      try (destruct (Nat.eqb _ 0); discriminate).
    destruct (sc_sufficient cfg) as [[|c cs]|];
      try (intro H; injection H as _ <-; reflexivity).
    destruct (validateCombos allLensIds (c :: cs)) eqn:E;
      [destruct (Nat.eqb _ 0); discriminate|].
    intro H; injection H as -> ->. exact (validateCombos_step _ _ _ _ E).
Qed.

Lemma firstMatchingCombo_sound (es : list JoinedEntity) (combos : list (list string)) c ms :
  firstMatchingCombo es combos = Some (c, ms) ->
  In c combos /\ ms <> [] /\
  forall e, In e ms <-> In e es /\ coversAll c (je_presentInLenses e) = true.
Proof.
  induction combos as [|c0 cs IH]; cbn [firstMatchingCombo]; [discriminate|].
  destruct (filter _ es) as [|x xs] eqn:E.
  - intro H. destruct (IH H) as [H1 H2]. split; [right; exact H1 | exact H2].
  - intro H. injection H as <- <-. split; [left; reflexivity|]. split; [discriminate|].
    intro e. rewrite <- E. apply filter_In.
Qed.

(** evaluateSignalWithEntities fires exactly when it reports an entity; its satisfied-by list is duplicate-free and each lens in it is present in a reported entity; a matched combination belongs to the sufficient list and every unreported entity fails to cover it. *)
Theorem evaluateSignalWithEntities_report (jr : JoinResult) (cfg : SignalConfig)
    (allLensIds : list string) :
  let r := evaluateSignalWithEntities jr cfg allLensIds in
  sr_fired r = negb (Nat.eqb (length (sr_entities r)) 0) /\
  NoDup (sr_satisfiedBy r) /\
  (forall id, In id (sr_satisfiedBy r) ->
     exists e, In e (jr_entities jr) /\ In (je_entity e) (sr_entities r) /\
               In id (je_presentInLenses e)) /\
  (forall c, sr_matchedCombination r = Some c ->
     sc_type cfg = RCombination /\ In c (sufficient_or_nil cfg) /\
     forall e, In e (jr_entities jr) -> In (je_entity e) (sr_entities r) \/
               coversAll c (je_presentInLenses e) = false).
Proof.
  cbv zeta. unfold evaluateSignalWithEntities.
  set (mk := fun (matching : list JoinedEntity) (mc : option (list string)) =>
    {| sr_fired := negb (Nat.eqb (length matching) 0);
       sr_satisfiedBy := dedup (flat_map je_presentInLenses matching);
       sr_rule := rule_name (sc_type cfg);
       sr_matchedCombination := mc;
       sr_entities := map je_entity matching |}).
  assert (G : forall matching mc, incl matching (jr_entities jr) ->
            let r := mk matching mc in
            sr_fired r = negb (Nat.eqb (length (sr_entities r)) 0) /\
            NoDup (sr_satisfiedBy r) /\
            (forall id, In id (sr_satisfiedBy r) ->
               exists e, In e (jr_entities jr) /\ In (je_entity e) (sr_entities r) /\
                         In id (je_presentInLenses e))).
  { intros matching mc Hinc r. subst r mk. cbn.
    rewrite length_map. split; [reflexivity|].
    split; [apply distinct_NoDup, distinct_dedup_acc|].
    intros id Hid. apply dedup_acc_In in Hid as [Hid _].
    apply in_flat_map in Hid as [e [He Hid]].
    exists e. split; [apply Hinc; exact He|]. split; [apply in_map; exact He | exact Hid]. }
  destruct (sc_type cfg) eqn:Et.
  - destruct (G (filter (fun e => forallb (fun id => mem id (je_presentInLenses e)) allLensIds)
                        (jr_entities jr)) None) as [G1 [G2 G3]];
      [intros x Hx; apply filter_In in Hx; apply Hx|].
    split; [exact G1|]. split; [exact G2|]. split; [exact G3|]. intros c H; discriminate.
  - destruct (G (jr_entities jr) None) as [G1 [G2 G3]]; [intros x Hx; exact Hx|].
    split; [exact G1|]. split; [exact G2|]. split; [exact G3|]. intros c H; discriminate.
  - destruct (G (filter (fun e => Z.leb (match sc_min cfg with Some m => m | None => 2%Z end)
                                        (je_lensCount e)) (jr_entities jr)) None) as [G1 [G2 G3]];
      [intros x Hx; apply filter_In in Hx; apply Hx|].
    split; [exact G1|]. split; [exact G2|]. split; [exact G3|]. intros c H; discriminate.
  - destruct (firstMatchingCombo (jr_entities jr) (sufficient_or_nil cfg)) as [[c ms]|] eqn:Ef.
    + destruct (firstMatchingCombo_sound _ _ _ _ Ef) as [Hc [_ Hms]].
      destruct (G ms (Some c)) as [G1 [G2 G3]]; [intros x Hx; apply Hms in Hx; apply Hx|].
      split; [exact G1|]. split; [exact G2|]. split; [exact G3|].
      intros c' H. cbn in H. injection H as <-. split; [reflexivity|]. split; [exact Hc|].
      intros e He. destruct (coversAll c (je_presentInLenses e)) eqn:Ec; [left|right; reflexivity].
      cbn. apply in_map. apply Hms. split; [exact He | exact Ec].
    + destruct (G [] None) as [G1 [G2 G3]]; [intros x []|].
      split; [exact G1|]. split; [exact G2|]. split; [exact G3|]. intros c H; discriminate.
Qed.

End SignalExtraProofs.

Module RuntimeExtraProofs.
Import Runtime.
Local Open Scope Z_scope.
Local Open Scope string_scope.

Ltac run H :=
  cbv beta iota delta [bind ret throw stuck record websetsGet dateNow isCancelled
                       websetsCancel sleep updateProgress collectItems] in H.

(** Calls that never remove or create a webset. *)
Definition pollCall (c : Call) : Prop :=
  match c with CGet _ | CCancel _ | CSleep _ | CProgress _ _ _ => True | _ => False end.

Lemma pollLoop_outcome clock getResp cancelledAt fuel :
  forall websetId deadline stepNum totalSteps st o st',
  pollLoop clock getResp cancelledAt fuel websetId deadline stepNum totalSteps st = (o, st') ->
  (exists new, calls st' = (calls st ++ new)%list /\ Forall pollCall new) /\
  match o with
  | ORet (ws, true) => ws_status ws <> "idle" /\ ws_status ws <> "paused"
  | ORet (ws, false) =>
      ws_status ws = "idle" \/ exists pre, calls st' = (pre ++ [CCancel websetId])%list
  | _ => True
  end.
Proof.
  induction fuel as [|fuel IH]; intros websetId deadline stepNum totalSteps st o st' H;
    simpl in H; run H.
  - injection H as <- <-. split; [exists []; rewrite app_nil_r; split; [reflexivity|constructor] | exact I].
  - simpl in H.
    destruct (String.eqb (ws_status (getResp (n_get st))) "idle") eqn:Ei.
    { injection H as <- <-. split.
      - exists [CGet websetId]. split; [reflexivity | repeat constructor].
      - left. apply String.eqb_eq. exact Ei. }
    destruct (String.eqb (ws_status (getResp (n_get st))) "paused") eqn:Ep.
    { injection H as <- <-. split; [|exact I].
      exists [CGet websetId]. split; [reflexivity | repeat constructor]. }
    simpl in H.
    destruct (Z.leb deadline (clock (n_now st))).
    { injection H as <- <-. split.
      - exists [CGet websetId]. split; [reflexivity | repeat constructor].
      - split; intro E; apply String.eqb_eq in E; congruence. }
    destruct (ws_progress (getResp (n_get st))); simpl in H;
      (destruct (cancelledAt (n_cancel st)); simpl in H;
       [injection H as <- <-; split;
        [eexists; split; [rewrite <- !app_assoc; reflexivity | repeat constructor]
        | right; eexists; reflexivity] |]);
      (apply IH in H as [[new [Hc Hf]] Ho]; split; [|exact Ho]);
      cbn [calls] in Hc; rewrite <- !app_assoc in Hc; eexists; (split; [exact Hc|]);
      repeat constructor; exact Hf.
Qed.

(** pollUntilIdle only adds get, cancel, sleep and progress calls; when it times out, the webset it returns is neither idle nor paused; otherwise the webset is idle or the run was cancelled, a cancel of the webset being the last call made. *)
Theorem pollUntilIdle_outcome (clock : nat -> Z) (getResp : nat -> Webset)
    (cancelledAt : nat -> bool) (fuel : nat) (websetId : string) (timeoutMs stepNum totalSteps : Z)
    (st : St) (ws : Webset) (timedOut : bool) (st' : St) :
  pollUntilIdle clock getResp cancelledAt fuel websetId timeoutMs stepNum totalSteps st
    = (ORet (ws, timedOut), st') ->
  (exists new, calls st' = (calls st ++ new)%list /\ Forall pollCall new) /\
  if timedOut then ws_status ws <> "idle" /\ ws_status ws <> "paused"
  else ws_status ws = "idle" \/ exists pre, calls st' = (pre ++ [CCancel websetId])%list.
Proof.
  unfold pollUntilIdle. cbv beta iota delta [bind dateNow]. intro H.
  apply pollLoop_outcome in H as [Hc Ho]. split; [exact Hc|].
  destruct timedOut; exact Ho.
Qed.

End RuntimeExtraProofs.

Module RuntimeExtra2.
Import Runtime RuntimeExtraProofs.
Local Open Scope Z_scope.
Local Open Scope string_scope.

Definition validArgs (args : HarvestArgs) : bool :=
  negb (nullish (ha_query args)) &&
  match ha_entity args with
  | JObj fs => existsb (fun kv => String.eqb (fst kv) "type") fs
  | _ => false
  end.

Lemma harvestAfterPoll_no_throw clock cancelledAt listing args startTime steps websetId step2
    polled st e :
  fst (harvestAfterPoll clock cancelledAt listing args startTime steps websetId step2 polled st)
    <> OThrow e.
Proof.
  destruct polled as [ws timedOut]. unfold harvestAfterPoll.
  cbv beta iota delta [bind ret record dateNow isCancelled updateProgress collectItems]. simpl.
  destruct (cancelledAt (n_cancel st)); [discriminate|].
  destruct (ha_cleanup args) as [[|]|]; simpl; discriminate.
Qed.

(** lifecycleHarvest throws a WorkflowError at the validate step exactly when the query is null or undefined or the entity is not an object with a [type] key; in that case it makes no call to the service. *)
Theorem lifecycleHarvest_validation (clock : nat -> Z) (getResp : nat -> Webset)
    (cancelledAt : nat -> bool) (created : Webset) (listing : string -> list jsval)
    (fuel : nat) (args : HarvestArgs) (st : St) :
  let run := lifecycleHarvest clock getResp cancelledAt created listing fuel args st in
  (validArgs args = false <-> exists m, fst run = OThrow (WorkflowError m "validate")) /\
  (validArgs args = false -> calls (snd run) = calls st).
Proof.
  cbv zeta.
  assert (Hp : forall e, fst (lifecycleHarvest clock getResp cancelledAt created listing fuel args st)
                         = OThrow e -> validArgs args = true ->
                         e = JsError "Webset was paused unexpectedly").
  { intros e H Hv. unfold validArgs in Hv.
    unfold lifecycleHarvest, validateQuery, validateEntity in H.
    cbv beta iota delta [bind ret throw stuck record websetsGet dateNow isCancelled
                         websetsCancel sleep updateProgress collectItems websetsCreate] in H.
    destruct (nullish (ha_query args)); [discriminate|].
    destruct (ha_entity args) as [| | | | | |fs]; try discriminate.
    cbn [negb andb] in Hv. rewrite Hv in H. simpl in H.
    destruct (cancelledAt (n_cancel st)); simpl in H; [discriminate|].
    destruct (cancelledAt (S (n_cancel st))); simpl in H; [discriminate|].
    match type of H with context [pollUntilIdle ?a ?b ?c ?d ?e ?f ?g ?h ?i] =>
      destruct (pollUntilIdle a b c d e f g h i) as [[p|e'|] st'] eqn:Ep end;
      simpl in H.
    - exfalso. exact (harvestAfterPoll_no_throw _ _ _ _ _ _ _ _ _ _ _ H).
    - injection H as <-. exact (RuntimeProofs.pollUntilIdle_throw_only_paused _ _ _ _ _ _ _ _ _ _ _ Ep).
    - discriminate. }
  destruct (validArgs args) eqn:Ev.
  - split; [split; [discriminate | intros [m Hm]; apply Hp in Hm; [discriminate | reflexivity]]|].
    discriminate.
  - unfold validArgs in Ev. unfold lifecycleHarvest, validateQuery, validateEntity.
    cbv beta iota delta [bind ret throw stuck record websetsGet dateNow isCancelled
                         websetsCancel sleep updateProgress collectItems websetsCreate].
    destruct (nullish (ha_query args)).
    + cbn. split; [split; [eauto | reflexivity]|]. reflexivity.
    + destruct (ha_entity args) as [| | | | | |fs];
        try (cbn; split; [split; [eauto | reflexivity]|]; reflexivity).
      cbn [negb andb] in Ev. rewrite Ev.
      cbn. split; [split; [eauto | reflexivity]|]. reflexivity.
Qed.

Ltac in_calls :=
  repeat (apply in_app_iff; first [left; simpl; left; reflexivity | right]);
  simpl; auto.

(** A successful lifecycleHarvest reports the created webset id, the steps validate, create, poll and collect in this order, an item count equal to the number of items, the items collected with a cap of twice the requested count; it creates the webset with the query, lists its items, and deletes a webset exactly when cleanup is true. *)
Theorem lifecycleHarvest_result (clock : nat -> Z) (getResp : nat -> Webset)
    (cancelledAt : nat -> bool) (created : Webset) (listing : string -> list jsval)
    (fuel : nat) (args : HarvestArgs) (st : St) (r : HarvestResult) (st' : St) :
  lifecycleHarvest clock getResp cancelledAt created listing fuel args st = (ORet (Some r), st') ->
  hr_websetId r = ws_id created /\
  map fst (hr_steps r) = ["validate"; "create"; "poll"; "collect"] /\
  hr_itemCount r = Z.of_nat (length (hr_items r)) /\
  hr_items r = collectGo (harvestCount args * 2) 0 (listing (ws_id created)) /\
  exists new, calls st' = (calls st ++ new)%list /\
    In (CCreate (ha_query args)) new /\ In (CListAll (ws_id created)) new /\
    ((exists x, In (CDelete x) new) <-> ha_cleanup args = Some true).
Proof.
  intro H.
  unfold lifecycleHarvest, validateQuery, validateEntity in H.
  cbv beta iota delta [bind ret throw stuck record websetsGet dateNow isCancelled
                       websetsCancel sleep updateProgress collectItems websetsCreate] in H.
  destruct (nullish (ha_query args)); [discriminate|].
  destruct (ha_entity args) as [| | | | | |fs]; try discriminate.
  destruct (existsb _ fs); [|discriminate]. simpl in H.
  destruct (cancelledAt (n_cancel st)); simpl in H; [discriminate|].
  destruct (cancelledAt (S (n_cancel st))); simpl in H; [discriminate|].
  match type of H with context [pollUntilIdle ?a ?b ?c ?d ?e ?f ?g ?h ?i] =>
    destruct (pollUntilIdle a b c d e f g h i) as [[[ws timedOut]|e'|] st1] eqn:Ep end;
    simpl in H; try discriminate.
  unfold pollUntilIdle in Ep. cbv beta iota delta [bind dateNow] in Ep.
  apply pollLoop_outcome in Ep as [[pnew [Hc Hf]] _]. cbn [calls] in Hc.
  unfold harvestAfterPoll in H.
  cbv beta iota delta [bind ret record dateNow isCancelled updateProgress collectItems] in H.
  simpl in H.
  destruct (cancelledAt (n_cancel st1)); [discriminate|].
  assert (Hnd : forall x, ~ In (CDelete x) pnew).
  { intros x Hx. rewrite Forall_forall in Hf. exact (Hf _ Hx). }
  destruct (ha_cleanup args) as [[|]|]; simpl in H; injection H as <- <-; cbn.
  all: (split; [reflexivity|]); (split; [reflexivity|]); (split; [reflexivity|]);
    (split; [reflexivity|]); rewrite Hc; eexists; (split; [rewrite <- !app_assoc; reflexivity|]);
    (split; [in_calls|]); (split; [in_calls|]).
  - split; [intros _; reflexivity|]. intros _. exists (ws_id created). in_calls.
  - split; [|discriminate]. intros [x Hx].
    rewrite !in_app_iff in Hx. simpl in Hx.
    repeat match type of Hx with _ \/ _ => destruct Hx as [Hx|Hx] end;
      try discriminate; try contradiction; destruct (Hnd x Hx).
  - split; [|discriminate]. intros [x Hx].
    rewrite !in_app_iff in Hx. simpl in Hx.
    repeat match type of Hx with _ \/ _ => destruct Hx as [Hx|Hx] end;
      try discriminate; try contradiction; destruct (Hnd x Hx).
Qed.

End RuntimeExtra2.

Module JsonStringProofs.
Import Str Templates.

Lemma append_assoc_str (a b c : string) : ((a ++ b) ++ c)%string = (a ++ (b ++ c))%string.
Proof. induction a as [|x a IH]; simpl; [reflexivity | rewrite IH; reflexivity]. Qed.

Lemma pstring_quoteBody (s rest : string) :
  pstring (quoteBody s ++ dq ++ rest) = Some (s, false, rest).
Proof.
  induction s as [|c s IH]; [reflexivity|].
  cbn [quoteBody]. rewrite append_assoc_str.
  remember (quoteBody s ++ dq ++ rest)%string as T eqn:ET. clear ET.
  destruct c as [[] [] [] [] [] [] [] []]; simpl; rewrite ?IH; reflexivity.
Qed.

(** Parsing the JSON text that stringify produces for a string gives back that string. *)
Theorem jsonParse_stringify_string (s : string) :
  jsonParse (stringify (JStr s)) = PValue (JStr s).
Proof.
  assert (HB : pstring (quoteBody s ++ dq) = Some (s, false, ""%string)).
  { rewrite <- (pstring_quoteBody s ""). f_equal. }
  unfold jsonParse. cbn [stringify]. unfold quoteJSONString.
  remember (quoteBody s ++ dq)%string as B eqn:EB.
  remember (3 * String.length (dq ++ B) + 3)%nat as fuel eqn:Ef.
  destruct fuel as [|fuel]; [lia|]. clear Ef EB.
  simpl. rewrite HB. reflexivity.
Qed.

End JsonStringProofs.

Module ExtraWitnesses.
Import Str AssocFacts.

Definition summaryResult : list (string * jsval) :=
  [("websetId", JStr "ws_1"); ("itemCount", JNum 3)].

Lemma withSummary_spread_witness :
  distinct (map fst summaryResult) = true /\
  forallb (fun k => negb (isArrayIndex k)) (map fst summaryResult) = true /\
  map fst (Helpers.withSummary summaryResult "done") = ["_summary"; "websetId"; "itemCount"] /\
  lookup (Helpers.withSummary summaryResult "done") "itemCount" = JNum 3.
Proof.
  assert (H : distinct (map fst summaryResult) = true) by reflexivity.
  assert (Hi : forallb (fun k => negb (isArrayIndex k)) (map fst summaryResult) = true)
    by (vm_compute; reflexivity).
  destruct (HelperProofs.withSummary_spread summaryResult "done" H Hi) as [Hk Hl].
  split; [exact H | split; [exact Hi | split; [rewrite Hk; reflexivity | rewrite Hl; reflexivity]]].
Defined.

Lemma summarizeItem_matches_projection_witness :
  Helpers.summarizeItem Projections.makeItem =
    (let f := Projections.extractItemFields Projections.makeItem in
     if truthy (Projections.f_url f)
     then JStr (Helpers.jsToString (Projections.f_name f) ++ " ("
                ++ Helpers.jsToString (Projections.f_url f) ++ ")")%string
     else Projections.f_name f).
Proof.
  apply HelperProofs.summarizeItem_matches_projection; reflexivity.
Defined.

Definition filterSample : list jsval :=
  [JObj Projections.makeItem;
   JObj [("id", JStr "item-2");
         ("evaluations", JArr [JObj [("satisfied", JStr "no")]])]].

Lemma filterAndProjectItems_partition_witness :
  exists r, ItemFilter.filterAndProjectItems filterSample = Some r /\
    ItemFilter.fr_total r = 2%Z /\ ItemFilter.fr_included r = 1%Z /\
    ItemFilter.fr_excluded r = 1%Z.
Proof.
  eexists. split; [vm_compute; reflexivity|].
  match goal with |- context [ItemFilter.fr_total ?r] =>
    assert (H : ItemFilter.filterAndProjectItems filterSample = Some r) by (vm_compute; reflexivity);
    destruct (ItemFilterProofs.filterAndProjectItems_partition filterSample r H)
      as [_ [Ht [Hi He]]]
  end.
  rewrite Ht, Hi, He. split; [reflexivity | split; vm_compute; reflexivity].
Defined.

Definition noNumber (_ : string) : option Q := None.
Definition noRegex (_ : Shape.cvalue) (_ : string) : option bool := None.
Definition noDate (_ : string) : option Z := None.
Definition fundingShape : Shapes.ShapeConfig :=
  Shapes.mkShapeConfig "l" [Shape.mkCondition "Funding" "exists" Shape.CUndef] "all".
Definition fundingEnrichments : list (string * option (list string)) :=
  [("Funding", Some ["$10M"])].

Lemma evaluateShape_pass_needs_results_witness :
  Shapes.evaluateShape noNumber noRegex noDate 0 fundingShape fundingEnrichments = Some true /\
  Forall (ShapesProofs.found fundingEnrichments) (Shapes.sh_conditions fundingShape).
Proof.
  assert (H : Shapes.evaluateShape noNumber noRegex noDate 0 fundingShape fundingEnrichments
              = Some true) by reflexivity.
  split; [exact H|].
  exact (ShapesProofs.evaluateShape_pass_needs_results noNumber noRegex noDate 0
           fundingShape fundingEnrichments H).
Defined.

Lemma evaluateShape_no_conditions_witness :
  Shapes.evaluateShape noNumber noRegex noDate 0 (Shapes.mkShapeConfig "l" [] "any")
    fundingEnrichments = Some false.
Proof.
  exact (ShapesProofs.evaluateShape_no_conditions noNumber noRegex noDate 0
           (Shapes.mkShapeConfig "l" [] "any") fundingEnrichments eq_refl).
Defined.

Definition enrichedItems : list jsval :=
  [JObj [("enrichments", JArr [JObj [("enrichmentId", JStr "e1"); ("result", JArr [JStr "x"])]])]].

Lemma resolveEnrichmentDescriptions_sound_witness :
  exists res, Shapes.resolveEnrichmentDescriptions enrichedItems [("e1", "Funding")] = Some res /\
    map fst res = enrichedItems.
Proof.
  eexists. split; [vm_compute; reflexivity|].
  match goal with |- map fst ?res = _ =>
    assert (H : Shapes.resolveEnrichmentDescriptions enrichedItems [("e1", "Funding")] = Some res)
      by (vm_compute; reflexivity);
    exact (proj1 (ShapesProofs.resolveEnrichmentDescriptions_sound _ _ _ H))
  end.
Defined.

Definition sampleSignal : Signal.SignalResult :=
  Signal.mkSignalResult true ["hiring"; "press"] "all" None ["Acme"].

Definition sampleSnapshot : Delta.SnapshotData :=
  Delta.buildSnapshot "2024-01-01T00:00:00Z" TemporalJoinProofs.temporalLenses
    (Join.joinLensResults Join.diceSpec TemporalJoinProofs.sampleGetTime
       TemporalJoinProofs.temporalLenses TemporalJoinProofs.temporalConfig)
    sampleSignal [].

Lemma computeDelta_self_witness :
  distinct (map fst (Delta.sd_lenses sampleSnapshot)) = true /\
  Delta.dl_timeSinceLastEval
    (Delta.computeDelta TemporalJoinProofs.sampleGetTime sampleSnapshot sampleSnapshot) = "0m".
Proof.
  assert (H : distinct (map fst (Delta.sd_lenses sampleSnapshot)) = true) by (vm_compute; reflexivity).
  split; [exact H|].
  destruct (DeltaProofs.computeDelta_self TemporalJoinProofs.sampleGetTime sampleSnapshot H)
    as [_ [_ [_ [_ [_ [_ [_ Ht]]]]]]].
  rewrite Ht. reflexivity.
Defined.

Definition previousLenses : list Join.LensResult :=
  [Join.mkLensResult "hiring" "ws_1" 1 []].

Definition growthDelta : Delta.DeltaResult :=
  Delta.computeDelta TemporalJoinProofs.sampleGetTime
    (Delta.buildSnapshot "2024-01-03T00:00:00Z" TemporalJoinProofs.temporalLenses
       (Signal.mkJoinResult "entity" [] []) sampleSignal [])
    (Delta.buildSnapshot "2024-01-01T00:00:00Z" previousLenses
       (Signal.mkJoinResult "entity" [] []) sampleSignal []).

Lemma buildSnapshot_computeDelta_growth_witness :
  forallb (fun lr => plainKey (Join.lr_lensId lr)) TemporalJoinProofs.temporalLenses = true /\
  map fst (Delta.dl_newShapedItems growthDelta) = ["hiring"; "press"] /\
  assoc (Delta.dl_newShapedItems growthDelta) "hiring" = Some 1%Z.
Proof.
  assert (Hp : forallb (fun lr => plainKey (Join.lr_lensId lr)) TemporalJoinProofs.temporalLenses
               = true) by (vm_compute; reflexivity).
  split; [exact Hp|].
  destruct (DeltaProofs.buildSnapshot_computeDelta_growth TemporalJoinProofs.sampleGetTime
              "2024-01-03T00:00:00Z" "2024-01-01T00:00:00Z" TemporalJoinProofs.temporalLenses
              previousLenses (Signal.mkJoinResult "entity" [] []) (Signal.mkJoinResult "entity" [] [])
              sampleSignal sampleSignal [] [] "hiring" Hp) as [Hk Ha].
  unfold growthDelta. rewrite Hk, Ha. split; vm_compute; reflexivity.
Defined.

Lemma formatDuration_components_witness :
  Delta.formatDuration (Some (((1 * 24 + 2) * 60 + 3) * 60000 + 4)%Z) = "1d 2h 3m".
Proof.
  rewrite (FormatDurationProofs.formatDuration_components 1 2 3 4); try lia.
  vm_compute. reflexivity.
Defined.

Lemma formatDuration_negative_witness :
  Delta.formatDuration (Some (-5400000)%Z) = "-30m".
Proof.
  rewrite (FormatDurationProofs.formatDuration_negative (-5400000)%Z); [|lia].
  vm_compute. reflexivity.
Defined.

Lemma joinLensResults_entity_invariants_witness :
  Forall (fun e => Signal.je_lensCount e = Z.of_nat (length (Signal.je_presentInLenses e)))
    (Signal.jr_entities (Join.joinLensResults Join.diceSpec TemporalJoinProofs.sampleGetTime
       TemporalJoinProofs.temporalLenses TemporalJoinProofs.temporalConfig)).
Proof.
  destruct (JoinInvariantProofs.joinLensResults_entity_invariants Join.diceSpec
              TemporalJoinProofs.sampleGetTime TemporalJoinProofs.temporalLenses
              TemporalJoinProofs.temporalConfig (or_intror eq_refl)) as [_ [_ Hf]].
  eapply Forall_impl; [|exact Hf]. intros e He. exact (proj1 (proj2 He)).
Defined.

Lemma joinLensResults_evidence_sound_witness :
  In "hiring" (Signal.jr_lensesWithEvidence (Join.joinLensResults Join.diceSpec
     TemporalJoinProofs.sampleGetTime TemporalJoinProofs.temporalLenses
     TemporalJoinProofs.temporalConfig)) /\
  JoinInvariantProofs.evidenced TemporalJoinProofs.temporalLenses "hiring".
Proof.
  assert (H : In "hiring" (Signal.jr_lensesWithEvidence (Join.joinLensResults Join.diceSpec
     TemporalJoinProofs.sampleGetTime TemporalJoinProofs.temporalLenses
     TemporalJoinProofs.temporalConfig))) by (vm_compute; left; reflexivity).
  split; [exact H|].
  exact (JoinInvariantProofs.joinLensResults_evidence_sound Join.diceSpec
           TemporalJoinProofs.sampleGetTime _ _ _ H).
Defined.

Lemma pollUntilIdle_outcome_witness :
  exists ws timedOut st',
    Runtime.pollUntilIdle RuntimeProofs.sClock RuntimeProofs.sGet RuntimeProofs.neverCancelled
      5 "ws_1" 1000 2 4 Runtime.st0 = (Runtime.ORet (ws, timedOut), st') /\
    timedOut = true /\ Runtime.ws_status ws <> "idle".
Proof.
  do 3 eexists.
  match goal with |- ?lhs = (_, _) /\ _ =>
    let v := eval vm_compute in lhs in
    match v with (Runtime.ORet (?w, ?t), ?s) =>
      assert (H : lhs = (Runtime.ORet (w, t), s)) by (vm_compute; reflexivity);
      split; [exact H|];
      destruct (RuntimeExtraProofs.pollUntilIdle_outcome _ _ _ _ _ _ _ _ _ _ _ _ H) as [_ Ho]
    end
  end.
  split; [reflexivity|]. exact (proj1 Ho).
Defined.

Lemma lifecycleHarvest_result_witness :
  exists r st',
    Runtime.lifecycleHarvest RuntimeProofs.sClock RuntimeProofs.sGet RuntimeProofs.neverCancelled
      RuntimeProofs.sCreated RuntimeProofs.sListing 5 RuntimeProofs.sArgs Runtime.st0
      = (Runtime.ORet (Some r), st') /\
    Runtime.hr_itemCount r = Z.of_nat (length (Runtime.hr_items r)).
Proof.
  do 2 eexists.
  match goal with |- ?lhs = (_, _) /\ _ =>
    let v := eval vm_compute in lhs in
    match v with (Runtime.ORet (Some ?r), ?s) =>
      assert (H : lhs = (Runtime.ORet (Some r), s)) by (vm_compute; reflexivity);
      split; [exact H|];
      exact (proj1 (proj2 (proj2 (RuntimeExtra2.lifecycleHarvest_result _ _ _ _ _ _ _ _ _ _ H))))
    end
  end.
Defined.

End ExtraWitnesses.
